(** * Skematic: the validate walkers, the transform pipeline and strip

    A shallow embedding of the validation engine ([validate], [_checkKeys],
    [_validate], [_sparse]), of the transform pipeline ([transform]) and of
    the destructive [strip] helper, with the properties the specification
    states about them.  The modules these files require but that are not
    part of the sources at hand ([is], [rules], [default], [checkValue],
    [typeconvert], [format]) are parameters, or are modelled from the
    specification where a run on concrete data needs them.

    JavaScript values are modelled by the inductive type [value].  An object
    is the list of its own enumerable properties in enumeration order, so
    properties inherited from a prototype are outside the model: a property
    read [o[k]] is a read of an own property, which is what the code does
    on a keyed object as long as [k] is not the name of a member of
    [Object.prototype] (see [inherited_name]); the statements that depend
    on such a read say so.  Numbers are the integral ones and strings are
    sequences of 8-bit characters.
    Code that can throw returns in the error monad [res]; the recursive
    walkers take fuel and are shown to come back with the fuel they get. *)

From Stdlib Require Import String Ascii List ZArith Lia Bool Arith PeanoNat.
From Stdlib Require Import DecimalString DecimalNat Decimal.
Import ListNotations.
Local Open Scope string_scope.
Local Open Scope list_scope.

Set Implicit Arguments.

(** ** JavaScript values *)

#[warnings="-register-all"]
Inductive value : Type :=
| VUndef
| VNull
| VBool (b : bool)
| VNum (n : Z)
| VStr (s : string)
| VArr (elems : list value)
| VObj (props : list (string * value))
| VFun (id : nat).

Definition props := list (string * value).

(** Completion of a call: a returned value or a thrown exception. *)
Inductive res (A : Type) : Type :=
| Ok (a : A)
| Throw (e : string).

Arguments Ok {A} a.
Arguments Throw {A} e.

Definition bind {A B} (c : res A) (k : A -> res B) : res B :=
  match c with
  | Ok a => k a
  | Throw e => Throw e
  end.

Declare Scope js_scope.
Delimit Scope js_scope with js.
Notation "x <- c ;; k" := (bind c (fun x => k))
  (at level 61, c at next level, right associativity) : js_scope.
Local Open Scope js_scope.

(** [!!v] in JavaScript. *)
Definition truthy (v : value) : bool :=
  match v with
  | VUndef | VNull => false
  | VBool b => b
  | VNum n => negb (Z.eqb n 0)
  | VStr s => negb (String.eqb s "")
  | VArr _ | VObj _ | VFun _ => true
  end.

(** [a === b] on primitives.  Two compound values are the same only when
    they are the same reference, which a value does not record: they compare
    as different. *)
Definition strict_equal (a b : value) : bool :=
  match a, b with
  | VUndef, VUndef => true
  | VNull, VNull => true
  | VBool x, VBool y => Bool.eqb x y
  | VNum x, VNum y => Z.eqb x y
  | VStr x, VStr y => String.eqb x y
  | _, _ => false
  end.

(** [v instanceof Array] *)
Definition instanceof_Array (v : value) : bool :=
  match v with
  | VArr _ => true
  | _ => false
  end.

(** [String(idx)] for an array index. *)
Definition index_key (i : nat) : string :=
  NilEmpty.string_of_uint (Nat.to_uint i).

(** Association lists of own properties. *)
Fixpoint lookup (ps : props) (k : string) : option value :=
  match ps with
  | [] => None
  | (k', v) :: ps' => if String.eqb k' k then Some v else lookup ps' k
  end.

(** [o[k] = v] on the property list of [o]: overwrite in place, or append. *)
Fixpoint set_prop (ps : props) (k : string) (v : value) : props :=
  match ps with
  | [] => [(k, v)]
  | (k', v') :: ps' =>
      if String.eqb k' k then (k', v) :: ps' else (k', v') :: set_prop ps' k v
  end.

(** [delete o[k]] *)
Fixpoint delete_prop (ps : props) (k : string) : props :=
  match ps with
  | [] => []
  | (k', v') :: ps' =>
      if String.eqb k' k then delete_prop ps' k else (k', v') :: delete_prop ps' k
  end.

Definition chars (s : string) : list string :=
  map (fun c => String c EmptyString) (list_ascii_of_string s).

(** The element of [l] whose index prints as [k]. *)
Fixpoint at_index {A} (l : list A) (i : nat) (k : string) : option A :=
  match l with
  | [] => None
  | x :: l' => if String.eqb (index_key i) k then Some x else at_index l' (S i) k
  end.

(** The keys a [for (k in v)] loop or [Object.keys(v)] visits. *)
Definition own_keys (v : value) : list string :=
  match v with
  | VObj ps => map fst ps
  | VArr l => map index_key (seq 0 (List.length l))
  | VStr s => map index_key (seq 0 (String.length s))
  | _ => []
  end.

(** [o[k]] on a receiver that is neither [undefined] nor [null]: the own
    property, the length or an element of an array or a string.  The
    members a receiver inherits from its prototype are not found; the
    statements that read a key the caller chooses exclude their names. *)
Definition prop (o : value) (k : string) : value :=
  match o with
  | VObj ps => match lookup ps k with Some v => v | None => VUndef end
  | VArr l =>
      match at_index l 0 k with
      | Some v => v
      | None => if String.eqb k "length" then VNum (Z.of_nat (List.length l)) else VUndef
      end
  | VStr s =>
      match at_index (chars s) 0 k with
      | Some c => VStr c
      | None => if String.eqb k "length" then VNum (Z.of_nat (String.length s)) else VUndef
      end
  | _ => VUndef
  end.

(** [o[k]]: reading a property of [undefined] or [null] throws. *)
Definition get (o : value) (k : string) : res value :=
  match o with
  | VUndef | VNull => Throw "TypeError"
  | _ => Ok (prop o k)
  end.

(** [o[k] = v] when [o] is an object (a no-op on a primitive). *)
Definition assign (o : value) (k : string) (v : value) : value :=
  match o with
  | VObj ps => VObj (set_prop ps k v)
  | _ => o
  end.

(** Nesting depth of a value. *)
Fixpoint depth (v : value) : nat :=
  match v with
  | VArr l => S (fold_right (fun x n => Nat.max (depth x) n) 0 l)
  | VObj ps => S (fold_right (fun kv n => Nat.max (depth (snd kv)) n) 0 ps)
  | _ => 0
  end.

(** ** The validation result [{valid, errors}] *)

Record vresult : Type := mkResult { valid : bool; errors : value }.

Definition strings (l : list string) : value := VArr (map VStr l).

(** A [for] loop whose body can [continue] with the updated accumulator or
    [return] from the enclosing function. *)
Inductive step (S R : Type) : Type :=
| Next (s : S)
| Return (r : R).

Arguments Next {S R} s.
Arguments Return {S R} r.

(** [l.forEach((x, idx) => ...)]: pairs each element with its index. *)
Fixpoint indexed {A} (i : nat) (l : list A) : list (nat * A) :=
  match l with
  | [] => []
  | x :: l' => (i, x) :: indexed (S i) l'
  end.

(** A call that consumes fuel: [None] when the fuel ran out. *)
Definition fres (A : Type) : Type := option (res A).

Definition lift {A} (c : res A) : fres A := Some c.

Definition ok {A} (a : A) : fres A := Some (Ok a).

Definition fbind {A B} (c : fres A) (k : A -> fres B) : fres B :=
  match c with
  | None => None
  | Some (Throw e) => Some (Throw e)
  | Some (Ok a) => k a
  end.

Notation "x <~ c ;; k" := (fbind c (fun x => k))
  (at level 61, c at next level, right associativity) : js_scope.

Fixpoint for_in {K S R} (body : K -> S -> fres (step S R)) (ks : list K) (s : S)
  : fres (step S R) :=
  match ks with
  | [] => ok (Next s)
  | k :: ks' =>
      st <~ body k s ;;
      match st with
      | Next s' => for_in body ks' s'
      | Return r => ok (Return r)
      end
  end.

Definition nonempty {A} (l : list A) : bool :=
  match l with
  | [] => false
  | _ :: _ => true
  end.

(** ** validate *)

Section Validate.

(** The helper modules the file requires ([../is], [../rules],
    [../default], [./checkValue]) are taken as parameters. *)
Variable is_object : value -> bool.                       (* is.object(v) *)
Variable is_type : value -> string.                       (* is.type(v) *)
Variable isEmpty : value -> bool.                         (* Rules.isEmpty(v) *)
Variable setDefault : value -> value -> res value.        (* setDefault(v, scm) *)
Variable checkValue :                                     (* checkValue(val, model, data, opts) *)
  value -> value -> value -> value -> res (list string).

Definition MAX_USER_KEY_LEN : nat := 48.

(** Sanitize user keylength *)
Definition shortKey (key : string) : string :=
  if Nat.ltb MAX_USER_KEY_LEN (String.length key)
  then String.substring 0 (MAX_USER_KEY_LEN - 3) key ++ "..."
  else key.

Definition invalidObject : vresult :=
  mkResult false (VObj [("data", strings ["invalidObject"])]).

(** One iteration of the loop of [_checkKeys] over a data key. *)
Definition _checkKeys_body (model : value) (key : string) (ret : bool * props)
  : res (bool * props) :=
  m <- get model key ;;
  if negb (truthy m)
  then Ok (false, set_prop (snd ret) (shortKey key) (strings ["invalidKey"]))
  else Ok ret.

Fixpoint _checkKeys_loop (model : value) (keys : list string) (ret : bool * props)
  : res (bool * props) :=
  match keys with
  | [] => Ok ret
  | key :: keys' =>
      ret' <- _checkKeys_body model key ret ;;
      _checkKeys_loop model keys' ret'
  end.

Definition _checkKeys (model data : value) : res vresult :=
  if negb (is_object data) then Ok invalidObject
  else
    ret <- _checkKeys_loop model (own_keys data) (true, []) ;;
    Ok (mkResult (fst ret) (VObj (snd ret))).

(** *** _validate *)

(** [if (!errs[key]) errs[key] = {}] followed by [errs[key][idx] = e] *)
Definition record_at (errs : props) (key : string) (idx : nat) (e : value) : props :=
  let cur := match lookup errs key with
             | Some o => if truthy o then o else VObj []
             | None => VObj []
             end in
  set_prop errs key (assign cur (index_key idx) e).

Definition validator : Type := value -> value -> value -> value -> fres vresult.

(** The callback of [v.forEach] in the array branch. *)
Definition _validate_elem (self : validator) (sub data opts : value) (key : string)
    (iv : nat * value) (errs : props) : fres (step props vresult) :=
  let (idx, val) := iv in
  if String.eqb (is_type val) "object" then
    (* Array of complex objects *)
    arsub <~ self val sub opts (VObj []) ;;
    if negb (valid arsub)
    then ok (Next (record_at errs key idx (errors arsub)))
    else ok (Next errs)
  else
    (* Array of simple types *)
    er <~ lift (checkValue val sub data opts) ;;
    if nonempty er
    then ok (Next (record_at errs key idx (strings er)))
    else ok (Next errs).

(** What the callback finds for one element: its errors, if it fails. *)
Definition elem_errors (self : validator) (sub data opts val : value)
  : fres (option value) :=
  if String.eqb (is_type val) "object" then
    arsub <~ self val sub opts (VObj []) ;;
    ok (if negb (valid arsub) then Some (errors arsub) else None)
  else
    er <~ lift (checkValue val sub data opts) ;;
    ok (if nonempty er then Some (strings er) else None).

(** The body of the loop over the model keys. *)
Definition _validate_field (self : validator) (data model opts : value)
    (key : string) (errs : props) : fres (step props vresult) :=
  scm <~ lift (get model key) ;;
  (* Only handle own properties *)
  if negb (truthy scm) then ok (Next errs) else
  v <~ lift (get data key) ;;
  required <~ lift (get scm "required") ;;
  allowNull <~ lift (get scm "allowNull") ;;
  rules <~ lift (get scm "rules") ;;
  let isRequired := truthy required || strict_equal allowNull (VBool false) in
  let hasRules :=
    nonempty (own_keys (if truthy rules then rules else VObj [])) in
  dflt <~ lift (setDefault v scm) ;;
  let hasEmptyDefault := isEmpty dflt in
  if negb hasRules && negb isRequired && hasEmptyDefault then ok (Next errs) else
  sub <~ lift (get scm "model") ;;
  if truthy sub then
    (* Recursively validate the sub-model *)
    type <~ lift (get scm "type") ;;
    if strict_equal type (VStr "array") || instanceof_Array v then
      (* Don't attempt to process 'v' if it's not set *)
      if negb (truthy v) then ok (Next errs) else
      match v with
      | VArr elems =>
          for_in (_validate_elem self sub data opts key) (indexed 0 elems) errs
      | _ => lift (Throw "TypeError")          (* v.forEach is not a function *)
      end
    else
      (* Forces strict checking on sub-models *)
      checkedKeys <~ lift (_checkKeys sub v) ;;
      (* [return (errs[key] = checkedKeys)]: the assignment is to the local
         [errs], which the return drops *)
      if negb (valid checkedKeys) then ok (Return checkedKeys) else
      sub_res <~ self v sub opts (VObj []) ;;
      if negb (valid sub_res)
      then ok (Next (set_prop errs key (errors sub_res)))
      else ok (Next errs)
  else
    (* NO sub-model: test the value directly *)
    errors <~ lift (checkValue v scm data opts) ;;
    if nonempty errors
    then ok (Next (set_prop errs key (strings errors)))
    else ok (Next errs).

Definition _validate_body (self : validator) : validator :=
  fun data model opts parentData =>
  if negb (is_object data) then
    (* Validate scalars *)
    r <~ lift (checkValue data model parentData opts) ;;
    if nonempty r
    then ok (mkResult false (strings r))
    else ok (mkResult true VNull)
  else
    (* Step through ONLY our model keys *)
    st <~ for_in (_validate_field self data model opts) (own_keys model) [] ;;
    match st with
    | Return r => ok r
    | Next errs =>
        (* Return errors:null if no errors *)
        if nonempty errs
        then ok (mkResult false (VObj errs))
        else ok (mkResult true VNull)
    end.

Fixpoint _validate_fuel (fuel : nat) : validator :=
  match fuel with
  | O => fun _ _ _ _ => None
  | S fuel' => _validate_body (_validate_fuel fuel')
  end.

(** Every recursive call descends into the model, so its depth bounds the
    recursion (see [_validate_returns]). *)
Definition _validate (data model opts parentData : value) : fres vresult :=
  _validate_fuel (S (depth model)) data model opts parentData.

(** *** _sparse *)

Definition _sparse_body (data model opts : value) (key : string)
    (acc : bool * props) : fres (step (bool * props) vresult) :=
  m <~ lift (get model key) ;;
  (* Only valid with an associated model *)
  if negb (truthy m) then ok (Next acc) else
  d <~ lift (get data key) ;;
  out <~ _validate d m opts data ;;
  if negb (valid out)
  then ok (Next (false, set_prop (snd acc) key (errors out)))
  else ok (Next acc).

Definition _sparse (data model opts : value) : fres vresult :=
  st <~ for_in (_sparse_body data model opts) (own_keys data) (true, []) ;;
  match st with
  | Next (isValid, errs) => ok (mkResult isValid (VObj errs))
  | Return r => ok r
  end.

(** *** validate *)

Definition validate (model data opts : value) : fres vresult :=
  (* opts = {} *)
  let opts := match opts with VUndef => VObj [] | _ => opts end in
  keyCheckOnly <~ lift (get opts "keyCheckOnly") ;;
  if truthy keyCheckOnly then lift (_checkKeys model data) else
  strict <~ lift (get opts "strict") ;;
  let normal :=
    sparse <~ lift (get opts "sparse") ;;
    if truthy sparse then _sparse data model opts
    else _validate data model opts (VObj []) in
  if truthy strict then
    (* Strict checks that the data keys are valid AND runs normal
       validation if so *)
    checkedKeys <~ lift (_checkKeys model data) ;;
    if negb (valid checkedKeys) then ok checkedKeys else normal
  else normal.

End Validate.

(** ** The helper modules, from the specification

    [validate] is settled against any helpers; the definitions below give the
    instance used to run it on concrete schemas and data. *)

Section Helpers.

(** User functions (custom rules, function-valued defaults) are values
    [VFun id]; [call id args this] runs one. *)
Variable call : nat -> list value -> value -> res value.

(** The registry of named rule predicates. *)
Variable Rules : string -> option (value -> list value -> bool).

(** Modelled from the spec: [is.object] of the missing module [is]; the
    scalar form of validate is taken when data is not a keyed object. *)
Definition is_object (v : value) : bool :=
  match v with
  | VObj _ => true
  | _ => false
  end.

(** Modelled from the spec: [is.type] of the missing module [is];
    [typeOf(value)] classifies a value into a type tag. *)
Definition is_type (v : value) : string :=
  match v with
  | VUndef => "undefined"
  | VNull => "null"
  | VBool _ => "boolean"
  | VNum _ => "number"
  | VStr _ => "string"
  | VArr _ => "array"
  | VObj _ => "object"
  | VFun _ => "function"
  end.

(** Modelled from the spec: [Rules.isEmpty] of the missing module [rules];
    [undefined], [null], the empty string and the empty array or object
    are empty. *)
Definition isEmpty (v : value) : bool :=
  match v with
  | VUndef | VNull => true
  | VStr s => String.eqb s ""
  | VArr [] => true
  | VObj [] => true
  | _ => false
  end.

(** Modelled from the spec: [setDefault] of the missing module [default];
    the default is a static value or a zero-argument function, applied
    when the value is absent or empty. *)
Definition setDefault (v scm : value) : res value :=
  d <- get scm "default" ;;
  if isEmpty v then
    match d with
    | VUndef => Ok v
    | VFun f => call f [] VUndef
    | _ => Ok d
    end
  else Ok v.

(** Modelled from the spec: the type tags of a FieldSpec, checked against
    the raw value. *)
Definition of_type (tag : string) (v : value) : bool :=
  if String.eqb tag "string" then match v with VStr _ => true | _ => false end
  else if String.eqb tag "boolean" then match v with VBool _ => true | _ => false end
  else if String.eqb tag "number" then match v with VNum _ => true | _ => false end
  else if String.eqb tag "integer" then match v with VNum _ => true | _ => false end
  else if String.eqb tag "array" then match v with VArr _ => true | _ => false end
  else if String.eqb tag "object" then match v with VObj _ => true | _ => false end
  else true.

(** Modelled from the spec: the message of a failing rule [R] on a field
    whose [errors] attribute is [E] (§4.3, precedence 1 to 4). *)
Definition errMsg (E : value) (R : string) (fallback : string) : string :=
  match E with
  | VObj ps =>
      match lookup ps R with
      | Some (VStr m) => m
      | _ => match lookup ps "default" with
             | Some (VStr m) => m
             | _ => fallback ++ R
             end
      end
  | VStr m => m
  | _ => fallback ++ R
  end.

(** Modelled from the spec: a bare scalar rule value is one argument. *)
Definition rule_args (cfg : value) : list value :=
  match cfg with
  | VArr l => l
  | _ => [cfg]
  end.

(** Modelled from the spec: one declared rule of the missing [checkValue],
    a custom predicate called on the sibling record or a named predicate of
    the registry; an unknown name is an error of its own. *)
Definition check_rule (E val data : value) (rule : string * value)
  : res (list string) :=
  let (R, cfg) := rule in
  match cfg with
  | VFun f =>
      r <- call f [val] data ;;
      Ok (if truthy r then [] else [errMsg E R "Failed: "])
  | _ =>
      match Rules R with
      | None => Ok [errMsg E R "Unknown: "]
      | Some p => Ok (if p val (rule_args cfg) then [] else [errMsg E R "Failed: "])
      end
  end.

(** Modelled from the spec: the declared rules of the missing
    [checkValue], each applied in turn, all failures collected. *)
Fixpoint check_rules (E val data : value) (rules : props) : res (list string) :=
  match rules with
  | [] => Ok []
  | rule :: rules' =>
      e <- check_rule E val data rule ;;
      es <- check_rules E val data rules' ;;
      Ok (e ++ es)
  end.

(** Modelled from the spec: [checkValue] of the missing module
    [./checkValue], the scalar leaf check (required, then the type check,
    then each declared rule); a [type] that is neither a tag nor a
    sub-schema is a programmer error. *)
Definition checkValue (val scm data opts : value) : res (list string) :=
  match scm with
  | VUndef | VNull => Ok []
  | _ =>
      let E := prop scm "errors" in
      let isRequired :=
        truthy (prop scm "required")
        || strict_equal (prop scm "allowNull") (VBool false) in
      if strict_equal val VNull
         && negb (strict_equal (prop scm "allowNull") (VBool false))
      then Ok []
      else if isRequired && isEmpty val then Ok [errMsg E "required" "Failed: "]
      else if strict_equal val VUndef then Ok []
      else
        terr <- match prop scm "type" with
                | VUndef | VObj _ => Ok []
                | VStr tag =>
                    Ok (if of_type tag val then [] else [("Not of type: " ++ tag)%string])
                | _ => Throw "SchemaError: invalid type"
                end ;;
        rerr <- match prop scm "rules" with
                | VObj rules => check_rules E val data rules
                | _ => Ok []
                end ;;
        Ok (terr ++ rerr)
  end.

End Helpers.

(** Modelled from the spec: the registry of the missing module [rules],
    with the numeric and string-length bounds of §4.3 the examples use. *)
Definition builtin_rules (R : string) : option (value -> list value -> bool) :=
  if String.eqb R "min" then
    Some (fun v args => match v, args with
                        | VNum n, [VNum lo] => Z.leb lo n
                        | _, _ => false
                        end)
  else if String.eqb R "max" then
    Some (fun v args => match v, args with
                        | VNum n, [VNum hi] => Z.leb n hi
                        | _, _ => false
                        end)
  else if String.eqb R "minLength" then
    Some (fun v args => match v, args with
                        | VStr s, [VNum lo] => Z.leb lo (Z.of_nat (String.length s))
                        | _, _ => false
                        end)
  else if String.eqb R "maxLength" then
    Some (fun v args => match v, args with
                        | VStr s, [VNum hi] => Z.leb (Z.of_nat (String.length s)) hi
                        | _, _ => false
                        end)
  else None.

(** No user function is registered. *)
Definition no_calls (f : nat) (args : list value) (this : value) : res value :=
  Throw "TypeError".

(** [Skematic.validate], with the helpers above. *)
Definition Skematic_validate : value -> value -> value -> fres vresult :=
  validate is_object is_type isEmpty (setDefault no_calls)
           (checkValue no_calls builtin_rules).

Definition field (t : string) : value := VObj [("type", VStr t)].


(** ** The transform pipeline *)

(** A transform is a function of the value; it throws when the value has not
    the method it calls. *)
Definition transformer : Type := value -> res value.

(** The registry [_transforms]: name to function, in the order the names
    were added. *)
Definition registry : Type := list (string * transformer).

(** [_transforms[key]], among the own entries of the registry. *)
Fixpoint registered (reg : registry) (key : string) : option transformer :=
  match reg with
  | [] => None
  | (k, f) :: reg' => if String.eqb k key then Some f else registered reg' key
  end.

(** [transform.add(key, fn)]: the entry is replaced in place or appended,
    which is the order [Object.keys] keeps for names that are not array
    indices. *)
Fixpoint add (reg : registry) (key : string) (fn : transformer) : registry :=
  match reg with
  | [] => [(key, fn)]
  | (k, f) :: reg' =>
      if String.eqb k key then (k, fn) :: reg' else (k, f) :: add reg' key fn
  end.

(** [transform.available()] *)
Definition available (reg : registry) : list string := map fst reg.

(** The characters [trim] removes: space, tab to carriage return, and the
    no-break space. *)
Definition is_white (c : ascii) : bool :=
  let n := nat_of_ascii c in
  Nat.eqb n 32 || (Nat.leb 9 n && Nat.leb n 13) || Nat.eqb n 160.

Fixpoint trim_left (s : string) : string :=
  match s with
  | String c s' => if is_white c then trim_left s' else s
  | EmptyString => EmptyString
  end.

Fixpoint trim_right (s : string) : string :=
  match s with
  | String c s' =>
      match trim_right s' with
      | EmptyString => if is_white c then EmptyString else String c EmptyString
      | t => String c t
      end
  | EmptyString => EmptyString
  end.

Fixpoint remove_spaces (s : string) : string :=
  match s with
  | String c s' =>
      if Ascii.eqb c " "%char then remove_spaces s' else String c (remove_spaces s')
  | EmptyString => EmptyString
  end.

Definition upper (c : ascii) : ascii :=
  let n := nat_of_ascii c in
  if Nat.leb 97 n && Nat.leb n 122 then ascii_of_nat (n - 32) else c.

Definition lower (c : ascii) : ascii :=
  let n := nat_of_ascii c in
  if Nat.leb 65 n && Nat.leb n 90 then ascii_of_nat (n + 32) else c.

Fixpoint map_string (f : ascii -> ascii) (s : string) : string :=
  match s with
  | String c s' => String (f c) (map_string f s')
  | EmptyString => EmptyString
  end.

(** A string method called on [v]: a value without the method throws.  An
    object that brings a method of that name is outside the model (see
    [lacks_method]). *)
Definition on_string (f : string -> string) : transformer :=
  fun v =>
    match v with
    | VStr s => Ok (VStr (f s))
    | _ => Throw "TypeError"
    end.

(** [v.trim()] *)
Definition trim : transformer := on_string (fun s => trim_right (trim_left s)).
(** [v.replace(/ /g, '')] *)
Definition nowhite : transformer := on_string remove_spaces.
(** [v.toUpperCase()] *)
Definition uppercase : transformer := on_string (map_string upper).
(** [v.toLowerCase()] *)
Definition lowercase : transformer := on_string (map_string lower).

(** The casters of the missing module [./typeconvert] are a parameter; those
    whose name starts with [to] are added to the built-in transforms. *)
Definition _transforms (Cast : registry) : registry :=
  fold_left
    (fun reg cast =>
       if String.eqb (String.substring 0 2 (fst cast)) "to"
       then add reg (fst cast) (snd cast) else reg)
    Cast
    [("trim", trim); ("nowhite", nowhite);
     ("uppercase", uppercase); ("lowercase", lowercase)].

(** The [transforms] argument: absent, one name, or an array of names. *)
Inductive names : Type :=
| NoNames
| Name (key : string)
| Names (keys : list string).

(** [!transforms] *)
Definition no_transforms (transforms : names) : bool :=
  match transforms with
  | NoNames => true
  | Name key => String.eqb key ""
  | Names _ => false
  end.

(** The callback of [transforms.forEach]. *)
Definition transform_step (reg : registry) (val : value) (key : string) : res value :=
  match registered reg key with
  | Some fn => fn val
  | None => Ok val          (* this will silently fail if no transform is found *)
  end.

Fixpoint transform_each (reg : registry) (val : value) (keys : list string) : res value :=
  match keys with
  | [] => Ok val
  | key :: keys' =>
      val' <- transform_step reg val key ;;
      transform_each reg val' keys'
  end.

Definition transform (reg : registry) (val : value) (transforms : names) : res value :=
  (* No-op if no transforms *)
  if no_transforms transforms then Ok val
  (* Do not attempt to transform 'undefined' values *)
  else if strict_equal val VUndef then Ok val
  else
    (* Ensure transforms are provided as an array *)
    let keys := match transforms with
                | Name key => [key]
                | Names keys => keys
                | NoNames => []
                end in
    transform_each reg val keys.

(** The pipeline of the registered functions alone. *)
Fixpoint pipeline (fns : list transformer) (val : value) : res value :=
  match fns with
  | [] => Ok val
  | fn :: fns' => val' <- fn val ;; pipeline fns' val'
  end.

Fixpoint registered_fns (reg : registry) (keys : list string) : list transformer :=
  match keys with
  | [] => []
  | key :: keys' =>
      match registered reg key with
      | Some fn => fn :: registered_fns reg keys'
      | None => registered_fns reg keys'
      end
  end.

Definition is_registered (reg : registry) (key : string) : bool :=
  match registered reg key with
  | Some _ => true
  | None => false
  end.

(** ** strip *)

(** The keyed objects that can be mutated live in a store; a reference is an
    index into it. *)
Definition store : Type := list props.
Definition ref : Type := nat.

Fixpoint update (st : store) (r : ref) (f : props -> props) : store :=
  match st, r with
  | [], _ => []
  | o :: st', O => f o :: st'
  | o :: st', S r' => o :: update st' r' f
  end.

Definition alloc (o : props) (st : store) : ref * store :=
  (List.length st, st ++ [o]).

(** [if (!(values instanceof Array)) values = [values]] *)
Definition sentinels (values : value) : list value :=
  match values with
  | VArr l => l
  | _ => [values]
  end.

(** [values.forEach(val => data[k] === val && delete data[k])] *)
Definition strip_key (values : list value) (data : props) (k : string) : props :=
  fold_left
    (fun data val =>
       if strict_equal (prop (VObj data) k) val then delete_prop data k else data)
    values data.

(** The loop over the keys of [data], on its property list.  Every key the
    loop visits is an own property, so the guard [data.hasOwnProperty(k)]
    holds, [hasOwnProperty] being the inherited method. *)
Definition strip_props (values : value) (data : props) : props :=
  fold_left (strip_key (sentinels values)) (map fst data) data.

(** [strip(values, data)]: modifies the object [data] refers to. *)
Definition strip (values : value) (data : ref) (st : store) : store :=
  update st data (strip_props values).

(** ** format *)

Definition has (ps : props) (k : string) : bool :=
  match lookup ps k with
  | Some _ => true
  | None => false
  end.

Section Format.

(** User functions (generators, function-valued defaults) are functions of
    their arguments; they do not write to the store. *)
Variable call : nat -> list value -> value -> res value.
Variable reg : registry.

(** Modelled from the spec: a boolean option of the missing [format] and
    its default. *)
Definition flag (opts : value) (name : string) (dflt : bool) : bool :=
  match prop opts name with
  | VUndef => dflt
  | v => truthy v
  end.

(** Modelled from the spec: step 2 of the missing [format], [defaults]
    fills an empty or absent value from [default]. *)
Definition apply_default (opts scm v : value) : res value :=
  if flag opts "defaults" true then setDefault call v scm else Ok v.

(** Modelled from the spec: one op of a generator of the missing module,
    a plain function or an [{fn, args}] pair; the previous output is the
    first argument and the declared [args] are appended. *)
Definition run_op (cur op : value) : res value :=
  match op with
  | VFun f => call f [cur] VUndef
  | VObj ps =>
      match lookup ps "fn" with
      | Some (VFun f) =>
          call f (cur :: match lookup ps "args" with
                         | Some (VArr a) => a
                         | _ => []
                         end) VUndef
      | _ => Throw "TypeError"
      end
  | _ => Throw "TypeError"
  end.

(** Modelled from the spec: the chain of ops of a generator of the missing
    module, the output of each op feeding the next. *)
Fixpoint run_ops (cur : value) (ops : list value) : res value :=
  match ops with
  | [] => Ok cur
  | op :: ops' => next <- run_op cur op ;; run_ops next ops'
  end.

(** Modelled from the spec: a plain function, or an absent [ops] list, is
    a single-op chain. *)
Definition gen_ops (g : value) : list value :=
  match g with
  | VFun _ => [g]
  | VObj ps =>
      match lookup ps "ops" with
      | Some (VArr l) => l
      | Some (VFun f) => [VFun f]
      | _ => []
      end
  | _ => []
  end.

(** Modelled from the spec: step 3 of the missing [format], [generate]
    with the gates [preserve], [require] and [once] of §4.4. *)
Definition apply_generate (opts scm : value) (present : bool) (v : value)
  : res value :=
  let g := prop scm "generate" in
  let run_once :=
    strict_equal (prop opts "generate") (VStr "once") || truthy (prop opts "once") in
  if negb (truthy g) then Ok v
  else if negb (flag opts "generate" true) then Ok v
  else if truthy (prop g "preserve") && negb (isEmpty v) then Ok v
  else if truthy (prop g "require") && negb present then Ok v
  else if truthy (prop g "once") && negb run_once then Ok v
  else run_ops v (gen_ops g).

(** Modelled from the spec: the [transforms] attribute of a FieldSpec read
    by the missing [format], an ordered sequence of transform names. *)
Definition names_of (t : value) : names :=
  match t with
  | VStr key => Name key
  | VArr l => Names (map (fun k => match k with VStr key => key | _ => "" end) l)
  | _ => NoNames
  end.

(** Modelled from the spec: the scalar pipeline of the missing [format],
    steps 2 to 4 in their fixed order: defaults, generate, transform. *)
Definition format_value (opts scm : value) (present : bool) (v : value)
  : res value :=
  v1 <- apply_default opts scm v ;;
  v2 <- apply_generate opts scm present v1 ;;
  if flag opts "transform" true
  then transform reg v2 (names_of (prop scm "transforms"))
  else Ok v2.

Definition formatter : Type := value -> props -> value -> fres props.

(** Modelled from the spec: the elements of an array field of the missing
    [format], each formatted on its own. *)
Fixpoint format_elems (self : formatter) (opts sub : value) (elems : list value)
  : fres (list value) :=
  match elems with
  | [] => ok []
  | e :: elems' =>
      e' <~ match e with
            | VObj ps => r <~ self sub ps opts ;; ok (VObj r)
            | _ => lift (format_value opts sub true e)
            end ;;
      rest <~ format_elems self opts sub elems' ;;
      ok (e' :: rest)
  end.

(** Modelled from the spec: the sub-schema recursion of the missing
    [format]; each element of an array is formatted on its own (an object
    element recursively, a primitive one by the scalar pipeline), a single
    sub-object recurses with the same options. *)
Definition format_sub (self : formatter) (opts scm v : value) : fres value :=
  let sub := prop scm "schema" in
  if negb (truthy sub) then ok v
  else match v with
       | VArr elems => l <~ format_elems self opts sub elems ;; ok (VArr l)
       | VObj ps => r <~ self sub ps opts ;; ok (VObj r)
       | _ => ok v
       end.

(** Modelled from the spec: the per-field steps 2 to 5 of the missing
    [format], writing to the new record [out]. *)
Definition format_field (self : formatter) (schema : value) (input : props)
    (opts : value) (out : props) (key : string) : fres props :=
  let scm := prop schema key in
  if negb (truthy scm) then ok out else
  let present := has input key in
  v <~ lift (format_value opts scm present (prop (VObj input) key)) ;;
  v' <~ format_sub self opts scm v ;;
  if truthy (prop scm "protect") && negb (flag opts "protect" false)
  then ok (delete_prop out key)
  else if present || negb (strict_equal v' VUndef)
  then ok (set_prop out key v')
  else ok out.

(** Modelled from the spec: the loop of the missing [format] over the
    working keys. *)
Fixpoint format_fields (self : formatter) (schema : value) (input : props)
    (opts : value) (keys : list string) (out : props) : fres props :=
  match keys with
  | [] => ok out
  | key :: keys' =>
      out' <~ format_field self schema input opts out key ;;
      format_fields self schema input opts keys' out'
  end.

(** Modelled from the spec: the field designated by [primaryKey]. *)
Definition primaryKey (schema : value) : option string :=
  find (fun k => truthy (prop (prop schema k) "primaryKey")) (own_keys schema).

(** Modelled from the spec: step 7 of the missing [format], [mapIdFrom]
    copies the source key onto the primary key and removes the source. *)
Definition mapId (opts schema : value) (input out : props) : props :=
  match prop opts "mapIdFrom", primaryKey schema with
  | VStr from, Some pk =>
      if has input from
      then delete_prop (set_prop out pk (prop (VObj input) from)) from
      else out
  | _, _ => out
  end.

(** Modelled from the spec: the new record of the missing [format] before
    the strip step: a copy of the input entries (under [strict], of the
    declared ones), then the working keys (step 1, [sparse]) in schema
    order. *)
Definition build (self : formatter) (schema : value) (input : props)
    (opts : value) : fres props :=
  let base :=
    if flag opts "strict" false
    then filter (fun kv => truthy (prop schema (fst kv))) input
    else input in
  let keys :=
    filter (fun k => negb (flag opts "sparse" false) || has input k)
           (own_keys schema) in
  format_fields self schema input opts keys base.

(** Modelled from the spec: a nested record of the missing [format]; it is
    built as a value, and steps 6 and 7 are applied to it before it is
    stored in its parent. *)
Definition format_nested_body (self : formatter) : formatter :=
  fun schema input opts =>
    out <~ build self schema input opts ;;
    let stripped := match prop opts "strip" with
                    | VUndef => out
                    | values => strip_props values out
                    end in
    ok (mapId opts schema input stripped).

(** Modelled from the spec: the recursion of the missing [format] into
    sub-schemas, bounded by the depth of the schema. *)
Fixpoint format_nested (fuel : nat) : formatter :=
  match fuel with
  | O => fun _ _ _ => None
  | S fuel' => format_nested_body (format_nested fuel')
  end.

(** Modelled from the spec: [format] of the missing module; it builds a
    new record, never writing to the input: the record is allocated, then
    stripped in place by [strip] (step 6) and remapped (step 7).  The
    caller's data is a reference into the store, or absent. *)
Definition format (schema : value) (data : option ref) (opts : value)
    (st : store) : fres ref * store :=
  let input := match data with
               | Some r => nth r st []
               | None => []
               end in
  match build (format_nested (depth schema)) schema input opts with
  | Some (Ok out) =>
      let (r, st1) := alloc out st in
      let st2 := match prop opts "strip" with
                 | VUndef => st1
                 | values => strip values r st1
                 end in
      (ok r, update st2 r (mapId opts schema input))
  | Some (Throw e) => (Some (Throw e), st)
  | None => (None, st)
  end.

End Format.

(** [Skematic.format], with no user function and the built-in transforms. *)
Definition Skematic_format : value -> option ref -> value -> store -> fres ref * store :=
  format no_calls (_transforms []).

(** The entry of the error tree for element [i] of the array field [key]. *)
Definition entry (errs : props) (key : string) (i : nat) : option value :=
  match lookup errs key with
  | Some (VObj ps) => lookup ps (index_key i)
  | _ => None
  end.

Definition nullish (v : value) : bool :=
  match v with
  | VUndef | VNull => true
  | _ => false
  end.

(** The error tree has an entry under [key]. *)
Definition has_entry (tree : value) (key : string) : bool :=
  match tree with
  | VObj ps => has ps key
  | _ => false
  end.

(** [!model[key]]: the data key [key] is not on the model. *)
Definition unknown_key (model : value) (key : string) : bool :=
  negb (truthy (prop model key)).

Definition invalidKey : value := strings ["invalidKey"].

(** The errors [_checkKeys] collects over the data keys. *)
Fixpoint key_errors (model : value) (keys : list string) (errs : props) : props :=
  match keys with
  | [] => errs
  | key :: keys' =>
      key_errors model keys'
        (if unknown_key model key then set_prop errs (shortKey key) invalidKey
         else errs)
  end.

(** The property-list entry an array field keeps under [key] is absent or
    an object. *)
Definition array_entry_ok (errs : props) (key : string) : Prop :=
  lookup errs key = None \/ exists ps, lookup errs key = Some (VObj ps).

(** The result of a failed key check of a sub-object of [data]. *)
Definition nested_key_check (is_object : value -> bool) (data model : value)
    (r : vresult) : Prop :=
  exists k,
    In k (own_keys model)
    /\ _checkKeys is_object (prop (prop model k) "model") (prop data k) = Ok r
    /\ valid r = false.

(** A validate with the helpers of the specification and any [checkValue]. *)
Definition validate_with (checkValue : value -> value -> value -> value -> res (list string))
  : value -> value -> value -> fres vresult :=
  validate is_object is_type isEmpty (setDefault no_calls) checkValue.

(** ** Schemas and data of the examples *)

Definition sub_model (m : value) : value := VObj [("model", m)].

(** [{address: {model: {city: {type: 'string'}}}, age: {type: 'integer'}}]
    and [{address: {city: 'x', planet: 'y'}, age: 'old'}] *)
Definition address_model : value :=
  VObj [("address", sub_model (VObj [("city", field "string")]));
        ("age", field "integer")].

Definition address_data : value :=
  VObj [("address", VObj [("city", VStr "x"); ("planet", VStr "y")]);
        ("age", VStr "old")].

(** The same schema with [age] first. *)
Definition age_address_model : value :=
  VObj [("age", field "integer");
        ("address", sub_model (VObj [("city", field "string")]))].

(** [{tags: {required: true, type: 'array', model: {type: 'string'}}}] *)
Definition tags_model : value :=
  VObj [("tags", VObj [("required", VBool true); ("type", VStr "array");
                       ("model", field "string")])].

(** [{a: {type: 'string'}}] and [{a: 'hi'}] *)
Definition a_model : value := VObj [("a", field "string")].
Definition a_data : value := VObj [("a", VStr "hi")].

(** [{n: {type: 'integer'}}] and [{n: ''}] *)
Definition n_model : value := VObj [("n", field "integer")].
Definition n_data : value := VObj [("n", VStr "")].

(** [{name: {type: 'string'}, home: {model: {city: {type: 'string'}}}}] and
    [{home: {name: 1}}] *)
Definition home_model : value :=
  VObj [("name", field "string");
        ("home", sub_model (VObj [("city", field "string")]))].

Definition home_data : value := VObj [("home", VObj [("name", VNum 1)])].

(** [{name: {type: 'string'}, age: {type: 'integer'}}] and [{age: 'x'}] *)
Definition person_model : value :=
  VObj [("name", field "string"); ("age", field "integer")].

Definition person_data : value := VObj [("age", VStr "x")].




(** A key of 49 characters. *)
Definition long_key : string :=
  "kkkkkkkkkkkkkkkkkkkkkkkkkkkkkkkkkkkkkkkkkkkkkkkkk".

Definition long_key_data : value :=
  VObj [("a", VStr "hi"); (long_key, VNum 9)].

Definition strict_opts : value := VObj [("strict", VBool true)].
Definition keyCheckOnly_opts : value := VObj [("keyCheckOnly", VBool true)].
Definition sparse_opts : value := VObj [("sparse", VBool true)].

(** ** Notions for the further properties *)

(** The built-in transforms, before the casters are added. *)
Definition builtin_transforms : registry :=
  [("trim", trim); ("nowhite", nowhite);
   ("uppercase", uppercase); ("lowercase", lowercase)].

(** [cast.substr(0,2) === 'to'] *)
Definition is_caster_name (name : string) : bool :=
  String.eqb (String.substring 0 2 name) "to".

(** The value of a property does not match any of the values to strip. *)
Definition kept (values : value) (kv : string * value) : bool :=
  negb (existsb (strict_equal (snd kv)) (sentinels values)).

(** The options ask for the walk over the model keys: no key check, not
    sparse. *)
Definition plain_opts (opts : value) : Prop :=
  truthy (prop opts "keyCheckOnly") = false
  /\ truthy (prop opts "strict") = false
  /\ truthy (prop opts "sparse") = false.

Fixpoint has_space (s : string) : bool :=
  match s with
  | String c s' => Ascii.eqb c " "%char || has_space s'
  | EmptyString => false
  end.

(** The entry of an error tree under a key, if it has one. *)
Definition tree_entry (tree : value) (key : string) : option value :=
  match tree with
  | VObj ps => lookup ps key
  | _ => None
  end.

(** The names every keyed object inherits from [Object.prototype]: a read
    [o[k]] of such a name finds the inherited member when [o] has no own
    property [k]. *)
Definition Object_prototype : list string :=
  ["constructor"; "hasOwnProperty"; "isPrototypeOf"; "propertyIsEnumerable";
   "toLocaleString"; "toString"; "valueOf"; "__proto__";
   "__defineGetter__"; "__defineSetter__";
   "__lookupGetter__"; "__lookupSetter__"].

Definition inherited_name (k : string) : bool :=
  existsb (String.eqb k) Object_prototype.

(** A keyed object (an object literal), whose prototype is
    [Object.prototype]. *)
Definition keyed_object (v : value) : bool :=
  match v with
  | VObj _ => true
  | _ => false
  end.





(** The call [v.m()] throws a [TypeError], [v.m] being no function: [v] is
    a primitive, an array, or a keyed object without an own function under
    [m].  Meant for the method names [forEach], [trim], [replace],
    [toUpperCase] and [toLowerCase]; the statements exclude the values that
    have the method ([forEach] on an array, the string methods on a
    string). *)
Definition lacks_method (v : value) (m : string) : bool :=
  match v with
  | VObj ps =>
      match lookup ps m with
      | Some (VFun _) => false
      | _ => true
      end
  | VFun _ => false
  | _ => true
  end.

(** A value that [===] compares by content. *)
Definition primitive (v : value) : bool :=
  match v with
  | VArr _ | VObj _ | VFun _ => false
  | _ => true
  end.

(** The name starts with a decimal digit, as every array index does;
    [Object.keys] lists the array indices first, in numeric order. *)
Definition starts_with_digit (s : string) : bool :=
  match s with
  | String c _ =>
      let n := nat_of_ascii c in Nat.leb 48 n && Nat.leb n 57
  | EmptyString => false
  end.

(** [self2] returns whatever [self1] returns with the fuel it has. *)
Definition refines (self1 self2 : validator) : Prop :=
  forall data model opts parentData c,
    self1 data model opts parentData = Some c ->
    self2 data model opts parentData = Some c.

(** * Properties *)

Unset Implicit Arguments.

(** ** Property lists *)

Lemma lookup_set_prop_same (ps : props) (k : string) (v : value) :
  lookup (set_prop ps k v) k = Some v.
Proof.
  induction ps as [|[k' v'] ps IH]; simpl.
  - now rewrite String.eqb_refl.
  - destruct (String.eqb k' k) eqn:E; simpl; rewrite E; auto.
Qed.

Lemma lookup_set_prop_other (ps : props) (k k' : string) (v : value) :
  k <> k' -> lookup (set_prop ps k v) k' = lookup ps k'.
Proof.
  intros Hne. induction ps as [|[k0 v0] ps IH]; simpl.
  - apply String.eqb_neq in Hne. now rewrite Hne.
  - destruct (String.eqb k0 k) eqn:E; simpl.
    + apply String.eqb_eq in E. subst k0.
      apply String.eqb_neq in Hne. now rewrite Hne.
    + now rewrite IH.
Qed.

Lemma get_prop (o : value) (k : string) :
  nullish o = false -> get o k = Ok (prop o k).
Proof. destruct o; simpl; intros H; try discriminate; reflexivity. Qed.

Lemma truthy_not_nullish (o : value) : truthy o = true -> nullish o = false.
Proof. destruct o; simpl; intros H; try discriminate; reflexivity. Qed.

(** ** Strings *)

Lemma length_append (s t : string) :
  String.length (s ++ t) = String.length s + String.length t.
Proof. induction s; simpl; auto. Qed.

Lemma length_substring_0 (n : nat) (s : string) :
  n <= String.length s -> String.length (String.substring 0 n s) = n.
Proof.
  revert s. induction n as [|n IH]; intros s H.
  - destruct s; reflexivity.
  - destruct s as [|c s]; simpl in *; [lia|].
    rewrite IH; lia.
Qed.

Lemma shortKey_length (key : string) :
  String.length (shortKey key) <= MAX_USER_KEY_LEN.
Proof.
  unfold shortKey, MAX_USER_KEY_LEN.
  destruct (Nat.ltb 48 (String.length key)) eqn:E.
  - apply Nat.ltb_lt in E.
    rewrite length_append, length_substring_0; simpl; lia.
  - apply Nat.ltb_ge in E. exact E.
Qed.

Lemma shortKey_long (key : string) :
  MAX_USER_KEY_LEN < String.length key ->
  shortKey key = (String.substring 0 45 key ++ "...")%string.
Proof.
  unfold shortKey, MAX_USER_KEY_LEN. intros H.
  apply Nat.ltb_lt in H. now rewrite H.
Qed.

Lemma index_key_inj (i j : nat) : index_key i = index_key j -> i = j.
Proof.
  unfold index_key. intros H.
  apply (f_equal NilEmpty.uint_of_string) in H.
  rewrite !NilEmpty.usu in H. injection H as H.
  now apply DecimalNat.Unsigned.to_uint_inj.
Qed.

Lemma index_key_not_model (i : nat) : String.eqb (index_key i) "model" = false.
Proof.
  apply String.eqb_neq. unfold index_key.
  destruct (Nat.to_uint i); simpl; discriminate.
Qed.

Lemma index_key_not_schema (i : nat) : String.eqb (index_key i) "schema" = false.
Proof.
  apply String.eqb_neq. unfold index_key.
  destruct (Nat.to_uint i); simpl; discriminate.
Qed.

(** ** _checkKeys *)

Lemma _checkKeys_loop_spec (model : value) (keys : list string) (ret : bool * props) :
  nullish model = false ->
  _checkKeys_loop model keys ret
  = Ok (fst ret && negb (existsb (unknown_key model) keys),
        key_errors model keys (snd ret)).
Proof.
  intros Hm. revert ret.
  induction keys as [|key keys IH]; intros [b errs]; simpl.
  - now rewrite andb_true_r.
  - unfold _checkKeys_body. rewrite (get_prop model key Hm). simpl.
    unfold unknown_key at 1 3.
    destruct (truthy (prop model key)); simpl; rewrite IH; simpl.
    + reflexivity.
    + now rewrite andb_false_r.
Qed.

Lemma key_errors_keeps (model : value) (keys : list string) (errs : props) (s : string) :
  lookup errs s = Some invalidKey ->
  lookup (key_errors model keys errs) s = Some invalidKey.
Proof.
  revert errs. induction keys as [|key keys IH]; intros errs H; simpl; auto.
  apply IH. destruct (unknown_key model key); auto.
  destruct (string_dec (shortKey key) s) as [->|Hne].
  - apply lookup_set_prop_same.
  - now rewrite lookup_set_prop_other.
Qed.

Lemma key_errors_unknown (model : value) (keys : list string) (errs : props) (key : string) :
  In key keys -> unknown_key model key = true ->
  lookup (key_errors model keys errs) (shortKey key) = Some invalidKey.
Proof.
  revert errs. induction keys as [|k keys IH]; intros errs Hin Hu; simpl in *.
  - contradiction.
  - destruct Hin as [->|Hin].
    + rewrite Hu. apply key_errors_keeps, lookup_set_prop_same.
    + now apply IH.
Qed.

Lemma key_errors_only (model : value) (keys : list string) (errs : props)
    (s : string) (v : value) :
  lookup (key_errors model keys errs) s = Some v ->
  lookup errs s = Some v
  \/ (v = invalidKey
      /\ exists key, In key keys /\ unknown_key model key = true /\ s = shortKey key).
Proof.
  revert errs. induction keys as [|k keys IH]; intros errs H; simpl in *.
  - now left.
  - apply IH in H. destruct H as [H|(-> & key & Hin & Hu & ->)].
    + destruct (unknown_key model k) eqn:Hu; [|now left].
      destruct (string_dec (shortKey k) s) as [<-|Hne].
      * rewrite lookup_set_prop_same in H. injection H as <-.
        right. split; [reflexivity|]. exists k. auto.
      * rewrite lookup_set_prop_other in H by assumption. now left.
    + right. split; [reflexivity|]. exists key. auto.
Qed.

Lemma _checkKeys_object (is_object : value -> bool) (model data : value) :
  is_object data = true -> nullish model = false ->
  _checkKeys is_object model data
  = Ok (mkResult (negb (existsb (unknown_key model) (own_keys data)))
                 (VObj (key_errors model (own_keys data) []))).
Proof.
  intros Ho Hm. unfold _checkKeys. rewrite Ho. simpl.
  now rewrite _checkKeys_loop_spec.
Qed.

Lemma _checkKeys_not_object (is_object : value -> bool) (model data : value) :
  is_object data = false -> _checkKeys is_object model data = Ok invalidObject.
Proof. intros Ho. unfold _checkKeys. now rewrite Ho. Qed.

(** ** validate: the key checks *)

Section KeyChecks.

Variable is_object : value -> bool.
Variable is_type : value -> string.
Variable isEmpty : value -> bool.
Variable setDefault : value -> value -> res value.
Variable checkValue : value -> value -> value -> value -> res (list string).

Local Abbreviation validate' :=
  (validate is_object is_type isEmpty setDefault checkValue).
Local Abbreviation _validate' :=
  (_validate is_object is_type isEmpty setDefault checkValue).
Local Abbreviation _sparse' :=
  (_sparse is_object is_type isEmpty setDefault checkValue).

(** With [keyCheckOnly], or with [strict] when the check fails, validate
    returns what [_checkKeys] returns. *)
Lemma validate_key_check (model data opts : value) (r : vresult) :
  _checkKeys is_object model data = Ok r ->
  valid r = false ->
  truthy (prop opts "strict") = true \/ truthy (prop opts "keyCheckOnly") = true ->
  validate' model data opts = Some (Ok r).
Proof.
  intros Hck Hv Hopt. unfold validate.
  assert (Hn : nullish opts = false).
  { destruct opts; simpl in *; try reflexivity; destruct Hopt; discriminate. }
  assert (Ho : match opts with VUndef => VObj [] | _ => opts end = opts).
  { destruct opts; simpl in *; try reflexivity; discriminate. }
  rewrite Ho. rewrite !(get_prop opts _ Hn). unfold lift, fbind.
  destruct (truthy (prop opts "keyCheckOnly")) eqn:Ek.
  - now rewrite Hck.
  - destruct Hopt as [Hs|Hs]; [|discriminate].
    rewrite Hs, Hck, Hv. reflexivity.
Qed.

(** C10: a data value that is not a keyed object is rejected by the key
    check of [strict] or [keyCheckOnly] with
    [{valid: false, errors: {data: ['invalidObject']}}]; the result is the
    same for every [checkValue], no field rule is evaluated. *)
Theorem validate_invalidObject (model data opts : value) :
  is_object data = false ->
  truthy (prop opts "strict") = true \/ truthy (prop opts "keyCheckOnly") = true ->
  validate' model data opts
  = Some (Ok (mkResult false (VObj [("data", VArr [VStr "invalidObject"])]))).
Proof.
  intros Ho Hopt.
  apply validate_key_check; auto.
  now apply _checkKeys_not_object.
Qed.

(** C9: a data key that is not on the schema and is longer than 48
    characters is reported by the key check of [strict] or [keyCheckOnly]
    under its first 45 characters followed by ['...'], and not under the
    key itself. *)
Theorem long_unknown_key_truncated (model data opts : value) (key : string) :
  is_object data = true ->
  nullish model = false ->
  In key (own_keys data) ->
  unknown_key model key = true ->
  48 < String.length key ->
  truthy (prop opts "strict") = true \/ truthy (prop opts "keyCheckOnly") = true ->
  exists errs,
    validate' model data opts = Some (Ok (mkResult false (VObj errs)))
    /\ lookup errs (String.substring 0 45 key ++ "...")%string = Some invalidKey
    /\ lookup errs key = None.
Proof.
  intros Ho Hm Hin Hu Hlen Hopt.
  exists (key_errors model (own_keys data) []).
  assert (Hex : existsb (unknown_key model) (own_keys data) = true).
  { apply existsb_exists. exists key. auto. }
  split; [|split].
  - apply validate_key_check; auto.
    rewrite _checkKeys_object by assumption. now rewrite Hex.
  - rewrite <- shortKey_long by exact Hlen.
    now apply key_errors_unknown.
  - destruct (lookup (key_errors model (own_keys data) []) key) as [v|] eqn:E; auto.
    apply key_errors_only in E.
    destruct E as [E|(_ & k & _ & _ & ->)]; [discriminate|].
    pose proof (shortKey_length k) as Hk. unfold MAX_USER_KEY_LEN in Hk. lia.
Qed.

(** C6, as the code has it: on a data object with a key that is not on the
    schema, validate with [strict] returns the result of the key check,
    [valid] false and an error map holding exactly the [invalidKey]
    entries, one for each unknown key: under the key itself when it has at
    most 48 characters, under its first 45 characters followed by ['...']
    when it is longer.  The result does not involve [checkValue].  When
    every data key is on the schema, validation proceeds as without
    [strict].  The schema is a keyed object and no data key is named like
    a member of [Object.prototype], so that [model[key]] is the own
    property of the schema, or [undefined]. *)
Theorem strict_key_rejection (model data opts : value) :
  is_object data = true ->
  keyed_object model = true ->
  forallb (fun key => negb (inherited_name key)) (own_keys data) = true ->
  truthy (prop opts "strict") = true ->
  truthy (prop opts "keyCheckOnly") = false ->
  (existsb (unknown_key model) (own_keys data) = true ->
     let errs := key_errors model (own_keys data) [] in
     validate' model data opts = Some (Ok (mkResult false (VObj errs)))
     /\ (forall key, In key (own_keys data) -> unknown_key model key = true ->
           (String.length key <= 48 -> lookup errs key = Some invalidKey)
           /\ (48 < String.length key ->
                 lookup errs (String.substring 0 45 key ++ "...")%string
                 = Some invalidKey))
     /\ (forall s v, lookup errs s = Some v ->
           v = invalidKey
           /\ exists key, In key (own_keys data)
                          /\ unknown_key model key = true /\ s = shortKey key))
  /\ (existsb (unknown_key model) (own_keys data) = false ->
        validate' model data opts
        = if truthy (prop opts "sparse")
          then _sparse' data model opts
          else _validate' data model opts (VObj [])).
Proof.
  intros Ho Hkm _ Hs Hk.
  assert (Hm : nullish model = false) by (now destruct model).
  split.
  - intros Hex errs. split; [|split].
    + apply validate_key_check; auto.
      rewrite _checkKeys_object by assumption. now rewrite Hex.
    + intros key Hin Hu. split; intros Hlen.
      * replace key with (shortKey key) at 1.
        -- now apply key_errors_unknown.
        -- unfold shortKey, MAX_USER_KEY_LEN.
           apply Nat.ltb_ge in Hlen. now rewrite Hlen.
      * rewrite <- shortKey_long by exact Hlen.
        now apply key_errors_unknown.
    + intros s v E. apply key_errors_only in E.
      destruct E as [E|E]; [discriminate|exact E].
  - intros Hex. unfold validate.
    assert (Hn : nullish opts = false).
    { destruct opts; simpl in *; try reflexivity; discriminate. }
    assert (Hopts : match opts with VUndef => VObj [] | _ => opts end = opts).
    { destruct opts; simpl in *; try reflexivity; discriminate. }
    rewrite Hopts. rewrite !(get_prop opts _ Hn). unfold lift, fbind.
    rewrite Hk, Hs. rewrite _checkKeys_object by assumption.
    rewrite Hex. reflexivity.
Qed.

End KeyChecks.

(** ** Depth of the model and termination *)

Lemma depth_lookup (ps : props) (k : string) (v : value) :
  lookup ps k = Some v -> depth v < depth (VObj ps).
Proof.
  simpl. induction ps as [|[k' v'] ps IH]; simpl; intros H.
  - discriminate.
  - destruct (String.eqb k' k).
    + injection H as ->. lia.
    + apply IH in H. lia.
Qed.

Lemma depth_at_index (l : list value) (i : nat) (k : string) (v : value) :
  at_index l i k = Some v -> depth v < depth (VArr l).
Proof.
  simpl. revert i. induction l as [|x l IH]; simpl; intros i H.
  - discriminate.
  - destruct (String.eqb (index_key i) k).
    + injection H as ->. lia.
    + apply IH in H. lia.
Qed.

Lemma at_index_not_model {A} (l : list A) (i : nat) : at_index l i "model" = None.
Proof.
  revert i. induction l as [|x l IH]; intros i; simpl; auto.
  now rewrite index_key_not_model.
Qed.

Lemma at_index_not_schema {A} (l : list A) (i : nat) : at_index l i "schema" = None.
Proof.
  revert i. induction l as [|x l IH]; intros i; simpl; auto.
  now rewrite index_key_not_schema.
Qed.

Lemma depth_prop (o : value) (k : string) :
  depth (prop o k) < depth o \/ depth (prop o k) = 0.
Proof.
  destruct o as [| |b|n|s|l|ps|f]; try (right; reflexivity).
  - unfold prop. destruct (at_index (chars s) 0 k); right; [reflexivity|].
    destruct (String.eqb k "length"); reflexivity.
  - unfold prop. destruct (at_index l 0 k) eqn:E.
    + left. eapply depth_at_index; eauto.
    + right. destruct (String.eqb k "length"); reflexivity.
  - unfold prop. destruct (lookup ps k) eqn:E.
    + left. eapply depth_lookup; eauto.
    + right. reflexivity.
Qed.

Lemma depth_sub_model (scm : value) :
  truthy (prop scm "model") = true -> depth (prop scm "model") < depth scm.
Proof.
  destruct scm as [| |b|n|s|l|ps|f]; simpl; try discriminate.
  - rewrite at_index_not_model. simpl. discriminate.
  - rewrite at_index_not_model. simpl. discriminate.
  - destruct (lookup ps "model") eqn:E; [|discriminate].
    intros _. apply (depth_lookup _ _ _ E).
Qed.

Lemma depth_sub_schema (scm : value) :
  truthy (prop scm "schema") = true -> depth (prop scm "schema") < depth scm.
Proof.
  destruct scm as [| |b|n|s|l|ps|f]; simpl; try discriminate.
  - rewrite at_index_not_schema. simpl. discriminate.
  - rewrite at_index_not_schema. simpl. discriminate.
  - destruct (lookup ps "schema") eqn:E; [|discriminate].
    intros _. apply (depth_lookup _ _ _ E).
Qed.

Lemma get_inv (o : value) (k : string) (v : value) :
  get o k = Ok v -> v = prop o k.
Proof. destruct o; simpl; intros H; try discriminate; now injection H. Qed.

Lemma fbind_lift_returns {A B} (c : res A) (k : A -> fres B) :
  (forall a, c = Ok a -> k a <> None) -> fbind (lift c) k <> None.
Proof.
  intros H. destruct c as [a|e]; simpl.
  - now apply H.
  - discriminate.
Qed.

Lemma fbind_returns {A B} (c : fres A) (k : A -> fres B) :
  c <> None -> (forall a, c = Some (Ok a) -> k a <> None) -> fbind c k <> None.
Proof.
  intros Hc H. destruct c as [[a|e]|]; simpl.
  - now apply H.
  - discriminate.
  - contradiction.
Qed.

Lemma for_in_returns {K S R} (body : K -> S -> fres (step S R)) (ks : list K) :
  (forall k s, In k ks -> body k s <> None) ->
  forall s, for_in body ks s <> None.
Proof.
  induction ks as [|k ks IH]; intros H s; simpl.
  - discriminate.
  - apply fbind_returns.
    + apply H. now left.
    + intros [s'|r] _.
      * apply IH. intros k' s0 Hin. apply H. now right.
      * discriminate.
Qed.

Section Termination.

Variable is_object : value -> bool.
Variable is_type : value -> string.
Variable isEmpty : value -> bool.
Variable setDefault : value -> value -> res value.
Variable checkValue : value -> value -> value -> value -> res (list string).

Local Abbreviation _validate_fuel' :=
  (_validate_fuel is_object is_type isEmpty setDefault checkValue).

Lemma _validate_fuel_returns (fuel : nat) :
  forall data model opts parentData,
    depth model < fuel ->
    _validate_fuel' fuel data model opts parentData <> None.
Proof.
  induction fuel as [|fuel IH]; intros data model opts parentData Hd; [lia|].
  simpl. unfold _validate_body.
  destruct (negb (is_object data)).
  - apply fbind_lift_returns. intros r _. destruct (nonempty r); discriminate.
  - apply fbind_returns.
    2:{ intros [errs|r] _; [destruct (nonempty errs)|]; discriminate. }
    apply for_in_returns. intros key errs _.
    unfold _validate_field.
    apply fbind_lift_returns. intros scm Hscm. apply get_inv in Hscm.
    destruct (negb (truthy scm)); [discriminate|].
    apply fbind_lift_returns. intros v _.
    apply fbind_lift_returns. intros required _.
    apply fbind_lift_returns. intros allowNull _.
    apply fbind_lift_returns. intros rules _.
    apply fbind_lift_returns. intros dflt _.
    match goal with |- (if ?c then _ else _) <> None => destruct c end;
      [discriminate|].
    apply fbind_lift_returns. intros sub Hsub. apply get_inv in Hsub.
    destruct (truthy sub) eqn:Ht.
    2:{ apply fbind_lift_returns. intros es _. destruct (nonempty es); discriminate. }
    assert (Hsd : depth sub < fuel).
    { subst sub. pose proof (depth_sub_model _ Ht) as H1.
      pose proof (depth_prop model key) as H2. subst scm. lia. }
    apply fbind_lift_returns. intros type _.
    match goal with |- (if ?c then _ else _) <> None => destruct c end.
    + destruct (negb (truthy v)); [discriminate|].
      destruct v; try discriminate.
      apply for_in_returns. intros [idx val] errs' _.
      unfold _validate_elem.
      destruct (String.eqb (is_type val) "object").
      * apply fbind_returns; [now apply IH|].
        intros arsub _. destruct (negb (valid arsub)); discriminate.
      * apply fbind_lift_returns. intros er _. destruct (nonempty er); discriminate.
    + apply fbind_lift_returns. intros ck _.
      destruct (negb (valid ck)); [discriminate|].
      apply fbind_returns; [now apply IH|].
      intros sr _. destruct (negb (valid sr)); discriminate.
Qed.

(** [_validate] always comes back, with a result or an exception. *)
Lemma _validate_returns (data model opts parentData : value) :
  exists c, _validate is_object is_type isEmpty setDefault checkValue
              data model opts parentData = Some c.
Proof.
  unfold _validate.
  destruct (_validate_fuel' (S (depth model)) data model opts parentData) eqn:E.
  - eauto.
  - exfalso. revert E. apply _validate_fuel_returns. lia.
Qed.

(** So does [validate]. *)
Lemma validate_returns (model data opts : value) :
  exists c, validate is_object is_type isEmpty setDefault checkValue
              model data opts = Some c.
Proof.
  assert (H : validate is_object is_type isEmpty setDefault checkValue
                model data opts <> None).
  2:{ destruct (validate _ _ _ _ _ model data opts); [eauto|contradiction]. }
  unfold validate.
  set (o := match opts with VUndef => VObj [] | _ => opts end).
  assert (Hnormal :
    (sparse <~ lift (get o "sparse") ;;
     if truthy sparse
     then _sparse is_object is_type isEmpty setDefault checkValue data model o
     else _validate is_object is_type isEmpty setDefault checkValue
            data model o (VObj [])) <> None).
  { apply fbind_lift_returns. intros sparse _.
    destruct (truthy sparse).
    - unfold _sparse. apply fbind_returns.
      + apply for_in_returns. intros key acc _. unfold _sparse_body.
        apply fbind_lift_returns. intros m _.
        destruct (negb (truthy m)); [discriminate|].
        apply fbind_lift_returns. intros d _.
        apply fbind_returns.
        * destruct (_validate_returns d m o data) as [c ->]. discriminate.
        * intros out _. destruct (negb (valid out)); discriminate.
      + intros [[b errs]|r] _; discriminate.
    - destruct (_validate_returns data model o (VObj [])) as [c ->]. discriminate. }
  apply fbind_lift_returns. intros kco _.
  destruct (truthy kco); [discriminate|].
  apply fbind_lift_returns. intros strict _.
  destruct (truthy strict); [|exact Hnormal].
  apply fbind_lift_returns. intros ck _.
  destruct (negb (valid ck)); [discriminate|exact Hnormal].
Qed.

End Termination.

(** ** The error tree of an array field *)

Lemma record_at_ok (errs : props) (key : string) (i : nat) (e : value) :
  array_entry_ok errs key -> array_entry_ok (record_at errs key i e) key.
Proof.
  intros [H|[ps H]]; right; unfold record_at; rewrite H; simpl;
    rewrite lookup_set_prop_same; eauto.
Qed.

Lemma record_at_same (errs : props) (key : string) (i : nat) (e : value) :
  array_entry_ok errs key -> entry (record_at errs key i e) key i = Some e.
Proof.
  intros [H|[ps H]]; unfold entry, record_at; rewrite H; simpl;
    rewrite lookup_set_prop_same; simpl.
  - now rewrite String.eqb_refl.
  - apply lookup_set_prop_same.
Qed.

Lemma record_at_other_index (errs : props) (key : string) (i j : nat) (e : value) :
  array_entry_ok errs key -> i <> j ->
  entry (record_at errs key i e) key j = entry errs key j.
Proof.
  intros Hok Hne.
  assert (Hk : index_key i <> index_key j).
  { intros E. apply Hne. now apply index_key_inj. }
  destruct Hok as [H|[ps H]]; unfold entry, record_at; rewrite H; simpl;
    rewrite lookup_set_prop_same; simpl.
  - apply String.eqb_neq in Hk. now rewrite Hk.
  - now apply lookup_set_prop_other.
Qed.

Lemma record_at_other_key (errs : props) (key k : string) (i : nat) (e : value) :
  key <> k -> lookup (record_at errs key i e) k = lookup errs k.
Proof. intros Hne. unfold record_at. now apply lookup_set_prop_other. Qed.

Section Walk.

Variable is_object : value -> bool.
Variable is_type : value -> string.
Variable isEmpty : value -> bool.
Variable setDefault : value -> value -> res value.
Variable checkValue : value -> value -> value -> value -> res (list string).

Local Abbreviation validate' :=
  (validate is_object is_type isEmpty setDefault checkValue).
Local Abbreviation _validate' :=
  (_validate is_object is_type isEmpty setDefault checkValue).
Local Abbreviation _validate_field' :=
  (_validate_field is_object is_type isEmpty setDefault checkValue).
Local Abbreviation _validate_elem' := (_validate_elem is_type checkValue).
Local Abbreviation elem_errors' := (elem_errors is_type checkValue).

Lemma _validate_elem_spec (self : validator) (sub data opts : value)
    (key : string) (idx : nat) (val : value) (errs : props) :
  _validate_elem' self sub data opts key (idx, val) errs
  = (oe <~ elem_errors' self sub data opts val ;;
     ok (Next (match oe with
               | Some e => record_at errs key idx e
               | None => errs
               end))).
Proof.
  unfold _validate_elem, elem_errors.
  destruct (String.eqb (is_type val) "object").
  - destruct (self val sub opts (VObj [])) as [[r|e]|]; simpl; auto.
    destruct (negb (valid r)); reflexivity.
  - destruct (checkValue val sub data opts) as [er|e]; simpl; auto.
    destruct (nonempty er); reflexivity.
Qed.

Lemma elems_loop (self : validator) (sub data opts : value) (key : string)
    (elems : list value) :
  forall (n : nat) (errs : props) (st : step props vresult),
    array_entry_ok errs key ->
    for_in (_validate_elem' self sub data opts key) (indexed n elems) errs
    = Some (Ok st) ->
    exists errs',
      st = Next errs'
      /\ array_entry_ok errs' key
      /\ (forall k, key <> k -> lookup errs' k = lookup errs k)
      /\ (forall j, j < n \/ n + List.length elems <= j ->
            entry errs' key j = entry errs key j)
      /\ (forall i val, nth_error elems i = Some val ->
            exists oe,
              elem_errors' self sub data opts val = Some (Ok oe)
              /\ entry errs' key (n + i)
                 = match oe with
                   | Some e => Some e
                   | None => entry errs key (n + i)
                   end)
      /\ ((forall val, In val elems ->
             elem_errors' self sub data opts val = Some (Ok None)) ->
          errs' = errs).
Proof.
  induction elems as [|x elems IH]; intros n errs st Hok H;
    cbn [for_in indexed] in H.
  - injection H as <-. exists errs. repeat split; auto.
    intros i val Hn. destruct i; discriminate.
  - rewrite _validate_elem_spec in H.
    destruct (elem_errors' self sub data opts x) as [[oe|e]|] eqn:Ex;
      cbn [fbind ok] in H; try discriminate.
    set (errs1 := match oe with
                  | Some e => record_at errs key n e
                  | None => errs
                  end) in H.
    assert (Hok1 : array_entry_ok errs1 key).
    { subst errs1. destruct oe; auto using record_at_ok. }
    destruct (IH (S n) errs1 st Hok1 H)
      as (errs' & -> & Hok' & Hkeys & Hout & Hin & Hnone).
    exists errs'. split; [reflexivity|]. split; [exact Hok'|].
    split; [|split; [|split]].
    + intros k Hk. rewrite Hkeys by exact Hk. subst errs1.
      destruct oe; auto using record_at_other_key.
    + intros j Hj. rewrite Hout by (simpl in Hj; lia). subst errs1.
      destruct oe; auto. apply record_at_other_index; auto. simpl in Hj. lia.
    + intros i val Hn. destruct i as [|i]; simpl in Hn.
      * injection Hn as <-. exists oe. split; [exact Ex|].
        rewrite Nat.add_0_r. rewrite Hout by lia. subst errs1.
        destruct oe; auto using record_at_same.
      * destruct (Hin i val Hn) as (oe' & Hoe & He).
        exists oe'. split; [exact Hoe|].
        replace (n + S i) with (S n + i) by lia. rewrite He.
        destruct oe'; auto. subst errs1.
        destruct oe; auto. apply record_at_other_index; auto. lia.
    + intros Hall. rewrite Hnone.
      * subst errs1. rewrite (Hall x) in Ex by (now left).
        injection Ex as <-. reflexivity.
      * intros val Hval. apply Hall. now right.
Qed.

(** The callback never returns from the walk and writes under [key] only. *)
Lemma elems_loop_frame (self : validator) (sub data opts : value) (key : string)
    (elems : list value) :
  forall (n : nat) (errs : props) (st : step props vresult),
    for_in (_validate_elem' self sub data opts key) (indexed n elems) errs
    = Some (Ok st) ->
    exists errs',
      st = Next errs' /\ (forall k, key <> k -> lookup errs' k = lookup errs k).
Proof.
  induction elems as [|x elems IH]; intros n errs st H;
    cbn [for_in indexed] in H.
  - injection H as <-. eauto.
  - rewrite _validate_elem_spec in H.
    destruct (elem_errors' self sub data opts x) as [[oe|e]|];
      cbn [fbind ok] in H; try discriminate.
    apply IH in H. destruct H as (errs' & -> & Hkeys).
    exists errs'. split; [reflexivity|].
    intros k Hk. rewrite Hkeys by exact Hk.
    destruct oe; auto using record_at_other_key.
Qed.

(** A field that is not skipped, has a sub-model and holds an array runs
    the element callback over the array. *)
Lemma _validate_field_array (self : validator) (data model opts : value)
    (key : string) (errs : props) (elems : list value) (d : value) :
  nullish model = false -> nullish data = false ->
  truthy (prop model key) = true ->
  prop data key = VArr elems ->
  truthy (prop (prop model key) "model") = true ->
  setDefault (VArr elems) (prop model key) = Ok d -> isEmpty d = false ->
  _validate_field' self data model opts key errs
  = for_in (_validate_elem' self (prop (prop model key) "model") data opts key)
           (indexed 0 elems) errs.
Proof.
  intros Hm Hd Hscm Hv Hsub Hdef Hne.
  pose proof (truthy_not_nullish _ Hscm) as Hn.
  unfold _validate_field.
  rewrite (get_prop model key Hm). cbn [fbind lift]. rewrite Hscm. cbn [negb].
  rewrite (get_prop data key Hd). cbn [fbind lift]. rewrite Hv.
  rewrite !(get_prop _ _ Hn). cbn [fbind lift].
  rewrite Hdef. cbn [fbind lift]. rewrite Hne, !andb_false_r.
  rewrite Hsub. cbn [instanceof_Array truthy negb]. rewrite orb_true_r.
  reflexivity.
Qed.

(** The skip of an empty optional field: the step of the loop for it
    leaves the errors collected so far as they are. *)
Lemma _validate_field_skip (self : validator) (data model opts : value)
    (key : string) (errs : props) (d : value) :
  nullish model = false -> nullish data = false ->
  truthy (prop model key) = true ->
  truthy (prop (prop model key) "required") = false ->
  strict_equal (prop (prop model key) "allowNull") (VBool false) = false ->
  own_keys (if truthy (prop (prop model key) "rules")
            then prop (prop model key) "rules" else VObj []) = [] ->
  setDefault (prop data key) (prop model key) = Ok d -> isEmpty d = true ->
  _validate_field' self data model opts key errs = Some (Ok (Next errs)).
Proof.
  intros Hm Hd Hscm Hreq Hnull Hrules Hdef He.
  pose proof (truthy_not_nullish _ Hscm) as Hn.
  unfold _validate_field.
  rewrite (get_prop model key Hm). cbn [fbind lift]. rewrite Hscm. cbn [negb].
  rewrite (get_prop data key Hd). cbn [fbind lift].
  rewrite !(get_prop _ _ Hn). cbn [fbind lift].
  rewrite Hdef. cbn [fbind lift].
  rewrite Hreq, Hnull, Hrules, He. reflexivity.
Qed.

(** The step for a field writes under the key of that field only, or
    returns the result of the failed key check of its sub-object. *)
Lemma _validate_field_frame (self : validator) (data model opts : value)
    (k key : string) (errs : props) (st : step props vresult) :
  k <> key -> In k (own_keys model) ->
  _validate_field' self data model opts k errs = Some (Ok st) ->
  match st with
  | Next errs' => lookup errs key = None -> lookup errs' key = None
  | Return r => nested_key_check is_object data model r
  end.
Proof.
  intros Hne Hin H. unfold _validate_field in H.
  destruct (get model k) as [scm|] eqn:Hscm; cbn [fbind lift] in H; [|discriminate].
  apply get_inv in Hscm.
  destruct (negb (truthy scm)); [injection H as <-; auto|].
  destruct (get data k) as [v|] eqn:Hv; cbn [fbind lift] in H; [|discriminate].
  apply get_inv in Hv.
  destruct (get scm "required"); cbn [fbind lift] in H; [|discriminate].
  destruct (get scm "allowNull"); cbn [fbind lift] in H; [|discriminate].
  destruct (get scm "rules"); cbn [fbind lift] in H; [|discriminate].
  destruct (setDefault v scm); cbn [fbind lift] in H; [|discriminate].
  match type of H with (if ?c then _ else _) = _ => destruct c end;
    [injection H as <-; auto|].
  destruct (get scm "model") as [sub|] eqn:Hsub; cbn [fbind lift] in H;
    [|discriminate].
  apply get_inv in Hsub.
  destruct (truthy sub).
  - destruct (get scm "type"); cbn [fbind lift] in H; [|discriminate].
    match type of H with (if ?c then _ else _) = _ => destruct c end.
    + destruct (negb (truthy v)); [injection H as <-; auto|].
      destruct v as [| |b|n|s|elems|ps|f]; try discriminate.
      destruct (elems_loop_frame self sub data opts k elems 0 errs st H)
        as (errs' & -> & Hkeys).
      intros Hl. now rewrite Hkeys.
    + destruct (_checkKeys is_object sub v) as [ck|] eqn:Hck;
        cbn [fbind lift] in H; [|discriminate].
      destruct (negb (valid ck)) eqn:Hvalid.
      * injection H as <-. exists k. subst. repeat split; auto.
        now apply negb_true_iff.
      * destruct (self v sub opts (VObj [])) as [[sr|]|];
          cbn [fbind] in H; try discriminate.
        destruct (negb (valid sr)); injection H as <-; auto.
        intros Hl. now rewrite lookup_set_prop_other.
  - destruct (checkValue v scm data opts) as [es|]; cbn [fbind lift] in H;
      [|discriminate].
    destruct (nonempty es); injection H as <-; auto.
    intros Hl. now rewrite lookup_set_prop_other.
Qed.

(** The walk over the model keys keeps the error tree free of an entry
    under the key of a skipped field, unless it returns a nested key
    check. *)
Lemma walk_skips (self : validator) (data model opts : value) (key : string)
    (d : value) :
  truthy (prop model key) = true ->
  truthy (prop (prop model key) "required") = false ->
  strict_equal (prop (prop model key) "allowNull") (VBool false) = false ->
  own_keys (if truthy (prop (prop model key) "rules")
            then prop (prop model key) "rules" else VObj []) = [] ->
  setDefault (prop data key) (prop model key) = Ok d -> isEmpty d = true ->
  forall keys errs st,
    (forall k, In k keys -> In k (own_keys model)) ->
    lookup errs key = None ->
    for_in (_validate_field' self data model opts) keys errs = Some (Ok st) ->
    match st with
    | Next errs' => lookup errs' key = None
    | Return r => nested_key_check is_object data model r
    end.
Proof.
  intros Hscm Hreq Hnull Hrules Hdef He.
  assert (Hm : nullish model = false).
  { destruct model; simpl in *; try reflexivity; discriminate. }
  induction keys as [|k keys IH]; intros errs st Hsub Hl H; cbn [for_in] in H.
  - injection H as <-. exact Hl.
  - destruct (_validate_field' self data model opts k errs) as [[s1|e]|] eqn:Hk;
      cbn [fbind] in H; try discriminate.
    assert (Hs1 : match s1 with
                  | Next errs' => lookup errs' key = None
                  | Return r => nested_key_check is_object data model r
                  end).
    { destruct (string_dec k key) as [->|Hne].
      - destruct (nullish data) eqn:Hd.
        + exfalso. unfold _validate_field in Hk.
          rewrite (get_prop model key Hm) in Hk. cbn [fbind lift] in Hk.
          rewrite Hscm in Hk. cbn [negb] in Hk.
          destruct data; simpl in Hd; try discriminate Hd; discriminate Hk.
        + rewrite (_validate_field_skip self data model opts key errs d)
            in Hk by assumption.
          injection Hk as <-. exact Hl.
      - pose proof (_validate_field_frame self data model opts k key errs s1
                      Hne (Hsub k (or_introl eq_refl)) Hk) as Hf.
        destruct s1; auto. }
    destruct s1 as [errs1|r].
    + apply (IH errs1 st); auto. intros k' Hin. apply Hsub. now right.
    + injection H as <-. exact Hs1.
Qed.

(** C5, as the code has it: on the walk over the model keys (neither
    [sparse] nor a key check asked for), a field that is not required,
    does not set [allowNull] to false, declares no rules and whose value
    is empty after its default is skipped: the error tree validate returns
    has no entry under its key, even when the field declares a type and
    the value is absent.  The one other outcome is the result of the
    failed key check of a sub-object, returned as it is.  The data is a
    keyed object and the field is not named like a member of
    [Object.prototype], so that [data[key]] is the own property of the
    data, or [undefined]. *)
Theorem empty_optional_field_skipped (model data opts : value) (key : string)
    (d : value) (r : vresult) :
  is_object data = true ->
  keyed_object data = true ->
  inherited_name key = false ->
  truthy (prop opts "sparse") = false ->
  truthy (prop opts "strict") = false ->
  truthy (prop opts "keyCheckOnly") = false ->
  truthy (prop model key) = true ->
  truthy (prop (prop model key) "required") = false ->
  strict_equal (prop (prop model key) "allowNull") (VBool false) = false ->
  own_keys (if truthy (prop (prop model key) "rules")
            then prop (prop model key) "rules" else VObj []) = [] ->
  setDefault (prop data key) (prop model key) = Ok d -> isEmpty d = true ->
  validate' model data opts = Some (Ok r) ->
  has_entry (errors r) key = false \/ nested_key_check is_object data model r.
Proof.
  intros Ho _ _ Hsp Hst Hk Hscm Hreq Hnull Hrules Hdef He H.
  unfold validate in H.
  set (o := match opts with VUndef => VObj [] | _ => opts end) in H.
  assert (Hget : forall name, truthy (prop opts name) = false ->
                              get o name = Ok (prop o name)
                              /\ truthy (prop o name) = false).
  { intros name Hn. subst o.
    destruct opts; simpl in *; auto.
    destruct (get VNull "keyCheckOnly") eqn:E; discriminate. }
  destruct (Hget _ Hk) as [E Hk']. rewrite E in H. clear E.
  cbn [fbind lift] in H. rewrite Hk' in H.
  destruct (Hget _ Hst) as [E Hst']. rewrite E in H. clear E.
  cbn [fbind lift] in H. rewrite Hst' in H.
  destruct (Hget _ Hsp) as [E Hsp']. rewrite E in H. clear E.
  cbn [fbind lift] in H. rewrite Hsp' in H.
  unfold _validate in H. cbn [_validate_fuel] in H.
  unfold _validate_body in H. rewrite Ho in H. cbn [negb] in H.
  match type of H with
  | fbind (for_in ?body ?keys ?errs) _ = _ =>
      destruct (for_in body keys errs) as [[st|e]|] eqn:Hloop
  end; cbn [fbind] in H; try discriminate.
  pose proof (walk_skips _ data model o key d Hscm Hreq Hnull Hrules Hdef He
                (own_keys model) [] st (fun k Hin => Hin) eq_refl Hloop) as Hw.
  destruct st as [errs|r'].
  - left. destruct (nonempty errs); injection H as <-; simpl; auto.
    unfold has. now rewrite Hw.
  - right. injection H as <-. exact Hw.
Qed.

(** The array branch: the failing elements, and only they, are recorded
    in the entry of the field, each under its index. *)
Lemma array_field_by_index (self : validator) (data model opts : value)
    (key : string) (errs : props) (elems : list value) (d : value)
    (st : step props vresult) :
  nullish model = false -> nullish data = false ->
  truthy (prop model key) = true ->
  prop data key = VArr elems ->
  truthy (prop (prop model key) "model") = true ->
  setDefault (VArr elems) (prop model key) = Ok d -> isEmpty d = false ->
  lookup errs key = None ->
  _validate_field' self data model opts key errs = Some (Ok st) ->
  exists errs',
    st = Next errs'
    /\ (forall k, key <> k -> lookup errs' k = lookup errs k)
    /\ (forall i val, nth_error elems i = Some val ->
          exists oe,
            elem_errors' self (prop (prop model key) "model") data opts val
            = Some (Ok oe)
            /\ entry errs' key i = oe)
    /\ (forall i, List.length elems <= i -> entry errs' key i = None).
Proof.
  intros Hm Hd Hscm Hv Hsub Hdef Hne Hl H.
  rewrite (_validate_field_array self data model opts key errs elems d) in H
    by assumption.
  assert (Hok : array_entry_ok errs key) by (now left).
  assert (Hnone : forall i, entry errs key i = None).
  { intros i. unfold entry. now rewrite Hl. }
  destruct (elems_loop self _ data opts key elems 0 errs st Hok H)
    as (errs' & -> & _ & Hkeys & Hout & Hin & _).
  exists errs'. split; [reflexivity|]. split; [exact Hkeys|]. split.
  - intros i val Hn. destruct (Hin i val Hn) as (oe & Hoe & He).
    exists oe. split; [exact Hoe|]. simpl in He. rewrite He.
    destruct oe; auto.
  - intros i Hi. rewrite Hout by (right; simpl; exact Hi). apply Hnone.
Qed.

End Walk.

(** ** validate on concrete schemas *)

(** C1: on [address_model] and [address_data] the failed key check of the
    sub-object [address] ends the walk: validate returns the result of the
    key check, whatever [checkValue] is, so [age] is not validated and the
    error tree has the key [planet], none under [address]; with [age] first,
    the error found for [age] is dropped as well. *)
Theorem nested_key_check_ends_walk :
  (forall checkValue,
     validate_with checkValue address_model address_data VUndef
     = Some (Ok (mkResult false (VObj [("planet", invalidKey)]))))
  /\ Skematic_validate age_address_model address_data VUndef
     = Some (Ok (mkResult false (VObj [("planet", invalidKey)]))).
Proof. split; [intros checkValue|]; reflexivity. Qed.

(** C2: a required field with type array and a sub-model, absent from the
    data, is passed over: validate reports no error, whatever [checkValue]
    is. *)
Theorem required_array_field_not_reported :
  forall checkValue,
    validate_with checkValue tags_model (VObj []) VUndef
    = Some (Ok (mkResult true VNull)).
Proof. intros checkValue. reflexivity. Qed.

(** C3: with [keyCheckOnly] and with [sparse], a valid data object gets the
    empty error map, not [null]. *)
Theorem valid_result_with_empty_map :
  (forall checkValue,
     validate_with checkValue a_model a_data keyCheckOnly_opts
     = Some (Ok (mkResult true (VObj []))))
  /\ Skematic_validate a_model a_data sparse_opts
     = Some (Ok (mkResult true (VObj []))).
Proof. split; [intros checkValue|]; reflexivity. Qed.

(** C5 as stated fails: under [sparse] the empty value [''] of the optional
    field [n] is checked and reported; and with default options the failed
    key check of the sub-object [home] returns an error tree with an entry
    under the key of the skipped field [name]. *)
Lemma empty_optional_field_reported :
  (isEmpty (VStr "") = true
   /\ exists r, Skematic_validate n_model n_data sparse_opts = Some (Ok r)
                /\ has_entry (errors r) "n" = true)
  /\ (isEmpty (prop home_data "name") = true
      /\ exists r, Skematic_validate home_model home_data VUndef = Some (Ok r)
                   /\ has_entry (errors r) "name" = true).
Proof.
  split; (split; [reflexivity|]); eexists; (split; [reflexivity|]); reflexivity.
Qed.

Lemma empty_optional_field_skipped_witness :
  has_entry (VObj [("age", strings ["Not of type: integer"])]) "name" = false
  \/ nested_key_check is_object person_data person_model
       (mkResult false (VObj [("age", strings ["Not of type: integer"])])).
Proof.
  apply (empty_optional_field_skipped is_object is_type isEmpty
           (setDefault no_calls) (checkValue no_calls builtin_rules)
           person_model person_data VUndef "name" VUndef
           (mkResult false (VObj [("age", strings ["Not of type: integer"])])));
    reflexivity.
Defined.

(** C6 as stated fails: the unknown key [long_key] has no entry of its own
    in the error map of the strict check. *)
Lemma strict_long_key_not_reported_as_is :
  exists errs,
    Skematic_validate a_model long_key_data strict_opts
    = Some (Ok (mkResult false (VObj errs)))
    /\ unknown_key a_model long_key = true
    /\ lookup errs long_key = None.
Proof. eexists. split; [reflexivity|]. split; reflexivity. Qed.

Lemma strict_key_rejection_witness :
  Skematic_validate a_model long_key_data strict_opts
  = Some (Ok (mkResult false
                (VObj (key_errors a_model (own_keys long_key_data) [])))).
Proof.
  apply (strict_key_rejection is_object is_type isEmpty (setDefault no_calls)
           (checkValue no_calls builtin_rules) a_model long_key_data strict_opts);
    reflexivity.
Defined.

Lemma long_unknown_key_truncated_witness :
  exists errs,
    Skematic_validate a_model long_key_data keyCheckOnly_opts
    = Some (Ok (mkResult false (VObj errs)))
    /\ lookup errs (String.substring 0 45 long_key ++ "...")%string = Some invalidKey
    /\ lookup errs long_key = None.
Proof.
  apply (long_unknown_key_truncated is_object is_type isEmpty
           (setDefault no_calls) (checkValue no_calls builtin_rules)
           a_model long_key_data keyCheckOnly_opts long_key);
    try reflexivity.
  - right. left. reflexivity.
  - unfold long_key. simpl. lia.
  - right. reflexivity.
Defined.

Lemma validate_invalidObject_witness :
  Skematic_validate a_model (VNum 5) strict_opts
  = Some (Ok (mkResult false (VObj [("data", VArr [VStr "invalidObject"])]))).
Proof.
  apply (validate_invalidObject is_object is_type isEmpty (setDefault no_calls)
           (checkValue no_calls builtin_rules) a_model (VNum 5) strict_opts).
  - reflexivity.
  - left. reflexivity.
Defined.


(** ** transform *)

Lemma transform_each_pipeline (reg : registry) (keys : list string) :
  forall val, transform_each reg val keys = pipeline (registered_fns reg keys) val.
Proof.
  induction keys as [|key keys IH]; intros val; simpl; auto.
  unfold transform_step. destruct (registered reg key) as [fn|]; simpl.
  - destruct (fn val); simpl; auto.
  - apply IH.
Qed.

Lemma registered_fns_filter (reg : registry) (keys : list string) :
  registered_fns reg (filter (is_registered reg) keys) = registered_fns reg keys.
Proof.
  induction keys as [|key keys IH]; simpl; auto.
  unfold is_registered at 1.
  destruct (registered reg key) as [fn|] eqn:E; simpl; auto.
  rewrite E. now f_equal.
Qed.

(** C8, on the names that are not names of members of [Object.prototype]:
    applying a list of transform names skips the names that are not in the
    registry: at an unknown name the value goes on unchanged and nothing is
    thrown; the result is that of the list without its unknown names, that
    is, of the registered functions applied in the order of the list (an
    [undefined] value is returned as it is).  The lookup [_transforms[key]]
    is the lookup of an own entry of the registry for these names only. *)
Theorem unknown_transforms_skipped (reg : registry) (val : value) (keys : list string) :
  (forall key v,
     inherited_name key = false -> is_registered reg key = false ->
     transform_step reg v key = Ok v)
  /\ (forallb (fun key => negb (inherited_name key)) keys = true ->
      transform reg val (Names keys)
      = transform reg val (Names (filter (is_registered reg) keys))
      /\ transform reg val (Names keys)
         = if strict_equal val VUndef then Ok val
           else pipeline (registered_fns reg keys) val).
Proof.
  split; [|intros _; split].
  - intros key v _ H. unfold transform_step, is_registered in *.
    destruct (registered reg key); [discriminate|reflexivity].
  - unfold transform. simpl. destruct (strict_equal val VUndef); auto.
    now rewrite !transform_each_pipeline, registered_fns_filter.
  - unfold transform. simpl. destruct (strict_equal val VUndef); auto.
    apply transform_each_pipeline.
Qed.

Lemma unknown_transforms_skipped_witness :
  transform_step (_transforms []) (VStr " a b ") "bogus" = Ok (VStr " a b ")
  /\ transform (_transforms []) (VStr " a b ") (Names ["bogus"; "trim"; "uppercase"])
     = Ok (VStr "A B").
Proof.
  destruct (unknown_transforms_skipped (_transforms []) (VStr " a b ")
              ["bogus"; "trim"; "uppercase"]) as (Hstep & Hrun).
  split.
  - apply Hstep; reflexivity.
  - destruct (Hrun eq_refl) as (_ & ->). reflexivity.
Defined.

(** ** strip and format *)

Lemma update_length (st : store) (r : ref) (f : props -> props) :
  List.length (update st r f) = List.length st.
Proof.
  revert r. induction st as [|o st IH]; intros [|r]; simpl; auto.
Qed.

Lemma update_other (st : store) (r r' : ref) (f : props -> props) :
  r <> r' -> nth_error (update st r f) r' = nth_error st r'.
Proof.
  revert r r'. induction st as [|o st IH]; intros [|r] [|r'] H; simpl;
    try contradiction; auto.
Qed.

(** [strip] writes to the object it is handed and to no other. *)
Lemma strip_frame (values : value) (data : ref) (st : store) (r : ref) :
  data <> r -> nth_error (strip values data st) r = nth_error st r.
Proof. intros H. unfold strip. now apply update_other. Qed.

Lemma strip_length (values : value) (data : ref) (st : store) :
  List.length (strip values data st) = List.length st.
Proof. apply update_length. Qed.

Section FormatFacts.

Variable call : nat -> list value -> value -> res value.
Variable reg : registry.

Lemma format_elems_returns (self : formatter) (opts sub : value) (elems : list value) :
  (forall input, self sub input opts <> None) ->
  format_elems call reg self opts sub elems <> None.
Proof.
  intros Hself. induction elems as [|e elems IH]; simpl; [discriminate|].
  apply fbind_returns.
  - destruct e; try (unfold lift; discriminate).
    apply fbind_returns; [apply Hself|discriminate].
  - intros e' _. apply fbind_returns; [exact IH|discriminate].
Qed.

Lemma build_returns (self : formatter) (schema : value) (input : props) (opts : value) :
  (forall sub input', depth sub < depth schema -> self sub input' opts <> None) ->
  build call reg self schema input opts <> None.
Proof.
  intros Hself. unfold build.
  generalize (if flag opts "strict" false
              then filter (fun kv => truthy (prop schema (fst kv))) input
              else input).
  generalize (filter (fun k => negb (flag opts "sparse" false) || has input k)
                     (own_keys schema)).
  induction l as [|key keys IH]; intros out; simpl; [discriminate|].
  apply fbind_returns; [|intros out' _; apply IH].
  unfold format_field.
  destruct (truthy (prop schema key)) eqn:Hscm; simpl; [|discriminate].
  apply fbind_lift_returns. intros v _.
  apply fbind_returns.
  - unfold format_sub.
    destruct (truthy (prop (prop schema key) "schema")) eqn:Hsub; simpl;
      [|discriminate].
    assert (Hd : depth (prop (prop schema key) "schema") < depth schema).
    { pose proof (depth_sub_schema _ Hsub). pose proof (depth_prop schema key). lia. }
    destruct v; try discriminate.
    + apply fbind_returns; [|discriminate].
      apply format_elems_returns. intros input'. now apply Hself.
    + apply fbind_returns; [|discriminate]. now apply Hself.
  - intros v' _.
    destruct (truthy (prop (prop schema key) "protect")
              && negb (flag opts "protect" false)); [discriminate|].
    destruct (has input key || negb (strict_equal v' VUndef)); discriminate.
Qed.

Lemma format_nested_returns (fuel : nat) :
  forall schema input opts,
    depth schema < fuel -> format_nested call reg fuel schema input opts <> None.
Proof.
  induction fuel as [|fuel IH]; intros schema input opts Hd; [lia|].
  simpl. unfold format_nested_body.
  apply fbind_returns; [|discriminate].
  apply build_returns. intros sub input' Hsub. apply IH. lia.
Qed.

(** C4: [format] comes back with a result or an exception, and in both
    cases every object the caller had in the store, the input data among
    them, is what it was before the call; the record it returns is a new
    object, and it is this one the strip step is applied to. *)
Theorem format_leaves_input (schema : value) (data : option ref) (opts : value)
    (st : store) :
  fst (format call reg schema data opts st) <> None
  /\ (forall r, r < List.length st ->
        nth_error (snd (format call reg schema data opts st)) r = nth_error st r)
  /\ match fst (format call reg schema data opts st) with
     | Some (Ok r') =>
         List.length st <= r'
         /\ r' < List.length (snd (format call reg schema data opts st))
     | _ => True
     end.
Proof.
  unfold format.
  set (input := match data with Some r => nth r st [] | None => [] end).
  pose proof (build_returns (format_nested call reg (depth schema)) schema input opts
                (fun sub input' H => format_nested_returns (depth schema) sub input' opts H))
    as Hb.
  destruct (build call reg (format_nested call reg (depth schema)) schema input opts)
    as [[out|e]|]; [|simpl; repeat split; auto; discriminate|contradiction].
  unfold alloc. simpl.
  set (st1 := st ++ [out]).
  match goal with |- context [update ?s _ _] => set (st2 := s) end.
  assert (Hlen : List.length st2 = S (List.length st)).
  { subst st2. destruct (prop opts "strip"); try rewrite strip_length;
      subst st1; rewrite length_app; simpl; lia. }
  assert (Hold : forall r, r < List.length st -> nth_error st2 r = nth_error st r).
  { intros r Hr. subst st2.
    destruct (prop opts "strip"); try rewrite strip_frame by lia;
      subst st1; now apply nth_error_app1. }
  split; [discriminate|]. split.
  - intros r Hr. rewrite update_other by lia. now apply Hold.
  - rewrite update_length, Hlen. lia.
Qed.

End FormatFacts.

(** [format(myModel, {rando: undefined, power: 'x'}, {strip: [undefined, 'x']})]:
    the new record has the stripped keys removed, the input keeps them. *)
Example format_strip_example :
  Skematic_format
    (VObj [("power", VObj [("default", VNum 5)]);
           ("name", VObj [("default", VStr "zim");
                          ("transforms", VArr [VStr "uppercase"])])])
    (Some 0)
    (VObj [("strip", VArr [VUndef; VStr "x"])])
    [[("rando", VUndef); ("power", VStr "x")]]
  = (Some (Ok 1),
     [[("rando", VUndef); ("power", VStr "x")]; [("name", VStr "ZIM")]]).
Proof. reflexivity. Qed.

(** ** Runs from the tests and the README *)

Example provides_error_arrays_keyed_to_properties :
  Skematic_validate (VObj [("power", field "integer")])
                    (VObj [("power", VStr "1")]) VUndef
  = Some (Ok (mkResult false (VObj [("power", strings ["Not of type: integer"])]))).
Proof. reflexivity. Qed.

Example sets_valid_based_on_validation_result :
  Skematic_validate (VObj [("power", field "integer")])
                    (VObj [("power", VNum 1)]) VUndef
  = Some (Ok (mkResult true VNull)).
Proof. reflexivity. Qed.

Example validates_scalars :
  let s := VObj [("type", VStr "string"); ("rules", VObj [("maxLength", VNum 3)])] in
  Skematic_validate s (VStr "123") VUndef = Some (Ok (mkResult true VNull))
  /\ Skematic_validate s (VStr "1234") VUndef
     = Some (Ok (mkResult false (strings ["Failed: maxLength"]))).
Proof. split; reflexivity. Qed.

Example readme_rules :
  Skematic_validate
    (VObj [("name", VObj [("rules", VObj [("minLength", VNum 5)])])])
    (VObj [("name", VStr "Zim")]) VUndef
  = Some (Ok (mkResult false (VObj [("name", strings ["Failed: minLength"])]))).
Proof. reflexivity. Qed.

Example sparse_only_validates_data_fields :
  Skematic_validate
    (VObj [("mega", field "string"); ("cray", VObj [("required", VBool true)])])
    (VObj [("mega", VStr "kool")]) sparse_opts
  = Some (Ok (mkResult true (VObj []))).
Proof. reflexivity. Qed.

Example strict_rejects_unknown_key :
  Skematic_validate a_model (VObj [("a", VStr "hi"); ("z", VNum 9)]) strict_opts
  = Some (Ok (mkResult false (VObj [("z", invalidKey)]))).
Proof. reflexivity. Qed.

Example checkValue_required :
  checkValue no_calls builtin_rules (VStr "")
    (VObj [("required", VBool true); ("rules", VObj [("min", VNum 0)])])
    VUndef VUndef
  = Ok ["Failed: required"].
Proof. reflexivity. Qed.

Example checkValue_unrequired_undefined :
  checkValue no_calls builtin_rules VUndef
    (VObj [("rules", VObj [("min", VNum 0)])]) VUndef VUndef
  = Ok [].
Proof. reflexivity. Qed.

Example checkValue_unknown_rule :
  checkValue no_calls builtin_rules (VNum 1)
    (VObj [("type", VStr "integer"); ("rules", VObj [("attack", VBool true)])])
    VUndef VUndef
  = Ok ["Unknown: attack"].
Proof. reflexivity. Qed.

Example transform_trim_uppercase :
  transform (_transforms []) (VStr "   woo    ") (Names ["trim"; "uppercase"])
  = Ok (VStr "WOO").
Proof. reflexivity. Qed.

(** * Further properties of the code *)

(** ** The key check *)

Lemma set_prop_nonempty (ps : props) (k : string) (v : value) : set_prop ps k v <> [].
Proof.
  destruct ps as [|[k' v'] ps]; simpl; [discriminate|].
  destruct (String.eqb k' k); discriminate.
Qed.

Lemma _checkKeys_loop_verdict (model : value) (keys : list string) :
  forall b errs b' errs',
    (b = true <-> errs = []) ->
    _checkKeys_loop model keys (b, errs) = Ok (b', errs') ->
    (b' = true <-> errs' = []).
Proof.
  induction keys as [|key keys IH]; intros b errs b' errs' Hinv H; simpl in H.
  - injection H as <- <-. exact Hinv.
  - unfold _checkKeys_body in H.
    destruct (get model key) as [m|]; simpl in H; [|discriminate].
    destruct (negb (truthy m)); simpl in H.
    + apply IH in H; auto. split; [discriminate|].
      intros E. now apply set_prop_nonempty in E.
    + apply IH in H; auto.
Qed.

Lemma _checkKeys_loop_bound (model : value) (keys : list string) :
  forall ret ret',
    (forall k v, lookup (snd ret) k = Some v -> String.length k <= 48) ->
    _checkKeys_loop model keys ret = Ok ret' ->
    forall k v, lookup (snd ret') k = Some v -> String.length k <= 48.
Proof.
  induction keys as [|key keys IH]; intros ret ret' Hinv H; simpl in H.
  - injection H as <-. exact Hinv.
  - unfold _checkKeys_body in H.
    destruct (get model key) as [m|]; simpl in H; [|discriminate].
    destruct (negb (truthy m)); simpl in H.
    + eapply IH; [|exact H]. simpl. intros k v Hl.
      destruct (string_dec (shortKey key) k) as [<-|Hne].
      * apply shortKey_length.
      * rewrite lookup_set_prop_other in Hl by exact Hne. eauto.
    + eapply IH; eauto.
Qed.

Lemma _checkKeys_verdict (is_object : value -> bool)
    (model data : value) (r : vresult) :
  _checkKeys is_object model data = Ok r ->
  exists errs, errors r = VObj errs /\ (valid r = true <-> errs = []).
Proof.
  unfold _checkKeys. destruct (negb (is_object data)).
  - intros H. injection H as <-. simpl. eexists. split; [reflexivity|].
    split; discriminate.
  - destruct (_checkKeys_loop model (own_keys data) (true, [])) as [[b errs]|] eqn:E;
      simpl; [|discriminate].
    intros H. injection H as <-. simpl. exists errs. split; [reflexivity|].
    eapply _checkKeys_loop_verdict; [|exact E]. tauto.
Qed.

(** X1: whatever the data and the model, when the key check returns, its
    verdict and its error map agree: [valid] is true exactly when the map
    is empty; a rejected value always comes with a non-empty map. *)
Theorem _checkKeys_valid_iff_no_errors (is_object : value -> bool)
    (model data : value) (r : vresult) :
  _checkKeys is_object model data = Ok r ->
  exists errs, errors r = VObj errs /\ (valid r = true <-> errs = []).
Proof. apply _checkKeys_verdict. Qed.

Lemma _checkKeys_valid_iff_no_errors_witness :
  exists errs,
    VObj [("z", invalidKey)] = VObj errs /\ (false = true <-> errs = []).
Proof.
  apply (_checkKeys_valid_iff_no_errors is_object a_model
           (VObj [("a", VStr "hi"); ("z", VNum 9)])
           (mkResult false (VObj [("z", invalidKey)]))).
  reflexivity.
Defined.

(** X2: every key of the error map the key check returns has at most 48
    characters, however long the keys of the data are. *)
Theorem _checkKeys_keys_bounded (is_object : value -> bool)
    (model data : value) (r : vresult) (k : string) :
  _checkKeys is_object model data = Ok r ->
  has_entry (errors r) k = true ->
  String.length k <= MAX_USER_KEY_LEN.
Proof.
  unfold _checkKeys, MAX_USER_KEY_LEN. destruct (negb (is_object data)).
  - intros H Hk. injection H as <-.
    unfold invalidObject, has_entry, has in Hk. cbn [errors lookup] in Hk.
    destruct (String.eqb "data" k) eqn:E; [|discriminate].
    apply String.eqb_eq in E. subst k. simpl. lia.
  - destruct (_checkKeys_loop model (own_keys data) (true, [])) as [ret|] eqn:E;
      simpl; [|discriminate].
    intros H. injection H as <-. simpl. unfold has.
    destruct (lookup (snd ret) k) as [v|] eqn:Hl; [|discriminate].
    intros _. eapply _checkKeys_loop_bound; [|exact E|exact Hl].
    simpl. intros k0 v0 H0. discriminate.
Qed.

Lemma _checkKeys_keys_bounded_witness :
  String.length (String.substring 0 45 long_key ++ "...") <= MAX_USER_KEY_LEN.
Proof.
  apply (_checkKeys_keys_bounded is_object a_model long_key_data
           (mkResult false
              (VObj [((String.substring 0 45 long_key ++ "...")%string, invalidKey)]))).
  - reflexivity.
  - reflexivity.
Defined.

(** X3: the key check reads [model[key]] for each key of the data; on a
    model that is [undefined] or [null] it throws as soon as the data has a
    key, and accepts a data object without keys. *)
Theorem _checkKeys_without_model (is_object : value -> bool) (model data : value) :
  nullish model = true ->
  is_object data = true ->
  _checkKeys is_object model data
  = match own_keys data with
    | [] => Ok (mkResult true (VObj []))
    | _ :: _ => Throw "TypeError"
    end.
Proof.
  intros Hm Ho. unfold _checkKeys. rewrite Ho. simpl.
  destruct (own_keys data) as [|key keys]; simpl; [reflexivity|].
  unfold _checkKeys_body. destruct model; simpl in *; try discriminate; reflexivity.
Qed.

Lemma _checkKeys_without_model_witness :
  _checkKeys is_object VUndef a_data = Throw "TypeError"
  /\ _checkKeys is_object VNull (VObj []) = Ok (mkResult true (VObj [])).
Proof.
  split.
  - apply (_checkKeys_without_model is_object VUndef a_data); reflexivity.
  - apply (_checkKeys_without_model is_object VNull (VObj [])); reflexivity.
Defined.

(** ** The walks *)

Lemma _checkKeys_invalid (is_object : value -> bool) (model data : value) (r : vresult) :
  _checkKeys is_object model data = Ok r -> valid r = false ->
  exists errs, errors r = VObj errs /\ errs <> [].
Proof.
  intros H Hv. destruct (_checkKeys_verdict is_object model data r H)
    as (errs & He & Hiff).
  exists errs. split; [exact He|]. intros E. apply Hiff in E. congruence.
Qed.

Section MoreWalk.

Variable is_object : value -> bool.
Variable is_type : value -> string.
Variable isEmpty : value -> bool.
Variable setDefault : value -> value -> res value.
Variable checkValue : value -> value -> value -> value -> res (list string).

Local Abbreviation validate' :=
  (validate is_object is_type isEmpty setDefault checkValue).
Local Abbreviation _validate' :=
  (_validate is_object is_type isEmpty setDefault checkValue).
Local Abbreviation _sparse' :=
  (_sparse is_object is_type isEmpty setDefault checkValue).
Local Abbreviation _validate_field' :=
  (_validate_field is_object is_type isEmpty setDefault checkValue).
Local Abbreviation _validate_body' :=
  (_validate_body is_object is_type isEmpty setDefault checkValue).

(** Without [keyCheckOnly], [strict] and [sparse], validate is [_validate]. *)
Lemma validate_plain (model data opts : value) :
  plain_opts opts -> opts <> VNull ->
  validate' model data opts
  = _validate' data model (match opts with VUndef => VObj [] | _ => opts end)
      (VObj []).
Proof.
  intros (Hk & Hst & Hsp) Hn. unfold validate.
  set (o := match opts with VUndef => VObj [] | _ => opts end).
  assert (Hget : forall name, truthy (prop opts name) = false ->
                              get o name = Ok (prop o name)
                              /\ truthy (prop o name) = false).
  { intros name H. subst o. destruct opts; simpl in *; auto. congruence. }
  destruct (Hget _ Hk) as [E1 E2]. rewrite E1. cbn [fbind lift]. rewrite E2.
  clear E1 E2.
  destruct (Hget _ Hst) as [E1 E2]. rewrite E1. cbn [fbind lift]. rewrite E2.
  clear E1 E2.
  destruct (Hget _ Hsp) as [E1 E2]. rewrite E1. cbn [fbind lift]. rewrite E2.
  reflexivity.
Qed.

(** The step for a field returns from the walk only with the failed key
    check of its sub-object. *)
Lemma _validate_field_return (self : validator) (data model opts : value)
    (k : string) (errs : props) (r : vresult) :
  _validate_field' self data model opts k errs = Some (Ok (Return r)) ->
  valid r = false /\ exists sub v, _checkKeys is_object sub v = Ok r.
Proof.
  intros H. unfold _validate_field in H.
  destruct (get model k) as [scm|]; cbn [fbind lift] in H; [|discriminate].
  destruct (negb (truthy scm)); [discriminate|].
  destruct (get data k) as [v|]; cbn [fbind lift] in H; [|discriminate].
  destruct (get scm "required"); cbn [fbind lift] in H; [|discriminate].
  destruct (get scm "allowNull"); cbn [fbind lift] in H; [|discriminate].
  destruct (get scm "rules"); cbn [fbind lift] in H; [|discriminate].
  destruct (setDefault v scm); cbn [fbind lift] in H; [|discriminate].
  match type of H with (if ?c then _ else _) = _ => destruct c end; [discriminate|].
  destruct (get scm "model") as [sub|]; cbn [fbind lift] in H; [|discriminate].
  destruct (truthy sub).
  - destruct (get scm "type"); cbn [fbind lift] in H; [|discriminate].
    match type of H with (if ?c then _ else _) = _ => destruct c end.
    + destruct (negb (truthy v)); [discriminate|].
      destruct v as [| |b|n|s|elems|ps|f]; try discriminate.
      destruct (elems_loop_frame is_type checkValue self sub data opts k
                  elems 0 errs (Return r) H) as (errs' & E & _).
      discriminate.
    + destruct (_checkKeys is_object sub v) as [ck|] eqn:Hck;
        cbn [fbind lift] in H; [|discriminate].
      destruct (negb (valid ck)) eqn:Hvalid.
      * injection H as <-. split; [now apply negb_true_iff|eauto].
      * destruct (self v sub opts (VObj [])) as [[sr|]|];
          cbn [fbind] in H; try discriminate.
        destruct (negb (valid sr)); discriminate.
  - destruct (checkValue v scm data opts) as [es|]; cbn [fbind lift] in H;
      [|discriminate].
    destruct (nonempty es); discriminate.
Qed.

Lemma walk_return (self : validator) (data model opts : value) (keys : list string) :
  forall errs r,
    for_in (_validate_field' self data model opts) keys errs = Some (Ok (Return r)) ->
    valid r = false /\ exists sub v, _checkKeys is_object sub v = Ok r.
Proof.
  induction keys as [|k keys IH]; intros errs r H; cbn [for_in] in H.
  - discriminate.
  - destruct (_validate_field' self data model opts k errs) as [[[errs1|r1]|e]|] eqn:Hk;
      cbn [fbind] in H; try discriminate.
    + eapply IH; eauto.
    + injection H as <-. eapply _validate_field_return; eauto.
Qed.

(** X4: on the walk over the model keys (no [keyCheckOnly], no [sparse]),
    whenever validate returns a result, [valid] is true exactly when
    [errors] is [null]; an invalid result carries a non-empty error map, or
    for scalar data a non-empty array of messages. *)
Theorem validate_valid_iff_null (model data opts : value) (r : vresult) :
  truthy (prop opts "keyCheckOnly") = false ->
  truthy (prop opts "sparse") = false ->
  validate' model data opts = Some (Ok r) ->
  (valid r = true /\ errors r = VNull)
  \/ (valid r = false
      /\ ((exists errs, errors r = VObj errs /\ errs <> [])
          \/ (exists msgs, errors r = strings msgs /\ msgs <> []))).
Proof.
  intros Hk Hsp H. unfold validate in H.
  set (o := match opts with VUndef => VObj [] | _ => opts end) in H.
  assert (Hget : forall name, truthy (prop opts name) = false ->
                              get o name = Ok (prop o name)
                              /\ truthy (prop o name) = false).
  { intros name Hn. subst o. destruct opts; simpl in *; auto.
    destruct (get VNull "keyCheckOnly") eqn:E; discriminate. }
  destruct (Hget _ Hk) as [E Hk']. rewrite E in H. clear E.
  cbn [fbind lift] in H. rewrite Hk' in H.
  destruct (get o "strict") as [strict|]; cbn [fbind lift] in H; [|discriminate].
  destruct (Hget _ Hsp) as [E Hsp']. rewrite E in H. clear E.
  cbn [fbind lift] in H. rewrite Hsp' in H.
  assert (Hwalk : _validate' data model o (VObj []) = Some (Ok r) ->
                  (valid r = true /\ errors r = VNull)
                  \/ (valid r = false
                      /\ ((exists errs, errors r = VObj errs /\ errs <> [])
                          \/ (exists msgs, errors r = strings msgs /\ msgs <> [])))).
  { clear H. intros H. unfold _validate in H. cbn [_validate_fuel] in H.
    unfold _validate_body in H. destruct (negb (is_object data)).
    - destruct (checkValue data model (VObj []) o) as [msgs|]; cbn [fbind lift] in H;
        [|discriminate].
      destruct msgs as [|m msgs]; injection H as <-; simpl; auto.
      right. split; [reflexivity|]. right. exists (m :: msgs).
      split; [reflexivity|discriminate].
    - match type of H with
      | fbind (for_in ?body ?keys ?errs) _ = _ =>
          destruct (for_in body keys errs) as [[[errs1|r1]|e]|] eqn:Hloop
      end; cbn [fbind] in H; try discriminate.
      + destruct errs1 as [|kv errs1]; injection H as <-; simpl; auto.
        right. split; [reflexivity|]. left. eexists. split; [reflexivity|discriminate].
      + injection H as <-. apply walk_return in Hloop.
        destruct Hloop as (Hv & sub & v & Hck).
        right. split; [exact Hv|]. left. eapply _checkKeys_invalid; eauto. }
  destruct (truthy strict); [|now apply Hwalk].
  destruct (_checkKeys is_object model data) as [ck|] eqn:Hck; cbn [fbind lift] in H;
    [|discriminate].
  destruct (negb (valid ck)) eqn:Hv; [|now apply Hwalk].
  injection H as <-. apply negb_true_iff in Hv.
  right. split; [exact Hv|]. left. eapply _checkKeys_invalid; eauto.
Qed.

(** The sparse loop never returns early; its flag is true exactly when no
    error was recorded, and it records under data keys that are on the
    model. *)
Lemma _sparse_loop (data model opts : value) (keys : list string) :
  forall acc st,
    (fst acc = true <-> snd acc = []) ->
    for_in (_sparse_body is_object is_type isEmpty setDefault checkValue
              data model opts) keys acc = Some (Ok st) ->
    exists b errs,
      st = Next (b, errs)
      /\ (b = true <-> errs = [])
      /\ (forall k v, lookup errs k = Some v ->
            lookup (snd acc) k = Some v
            \/ (In k keys /\ truthy (prop model k) = true)).
Proof.
  induction keys as [|key keys IH]; intros [b errs] st Hinv H; cbn [for_in] in H.
  - injection H as <-. exists b, errs. repeat split; try apply Hinv. auto.
  - unfold _sparse_body at 1 in H.
    destruct (get model key) as [m|] eqn:Hm; cbn [fbind lift] in H; [|discriminate].
    apply get_inv in Hm.
    destruct (truthy m) eqn:Ht; cbn [negb] in H.
    2:{ cbn [fbind ok] in H. apply IH in H; auto.
        destruct H as (b' & errs' & -> & Hiff & Hkeys).
        exists b', errs'. repeat split; try apply Hiff.
        intros k v Hl. destruct (Hkeys k v Hl) as [|[]]; auto.
        right. split; [now right|assumption]. }
    destruct (get data key) as [d|]; cbn [fbind lift] in H; [|discriminate].
    destruct (_validate' d m opts data) as [[out|]|]; cbn [fbind] in H;
      try discriminate.
    destruct (negb (valid out)); cbn [fbind ok] in H.
    + apply IH in H.
      * destruct H as (b' & errs' & -> & Hiff & Hkeys).
        exists b', errs'. repeat split; try apply Hiff.
        intros k v Hl. destruct (Hkeys k v Hl) as [Hl'|[]].
        -- cbn [snd] in Hl'. destruct (string_dec key k) as [<-|Hne].
           ++ right. split; [now left|]. now subst m.
           ++ rewrite lookup_set_prop_other in Hl' by exact Hne. now left.
        -- right. split; [now right|assumption].
      * simpl. split; [discriminate|]. intros E. now apply set_prop_nonempty in E.
    + apply IH in H; auto.
      destruct H as (b' & errs' & -> & Hiff & Hkeys).
      exists b', errs'. repeat split; try apply Hiff.
      intros k v Hl. destruct (Hkeys k v Hl) as [|[]]; auto.
      right. split; [now right|assumption].
Qed.

(** X5: what [_sparse] returns is a map, never [null]; [valid] is true
    exactly when the map is empty, and every entry is under a key of the
    data that is on the model: a data key without a model entry is never
    reported. *)
Theorem _sparse_result (data model opts : value) (r : vresult) :
  _sparse' data model opts = Some (Ok r) ->
  exists errs,
    errors r = VObj errs
    /\ (valid r = true <-> errs = [])
    /\ (forall k, has errs k = true ->
          In k (own_keys data) /\ truthy (prop model k) = true).
Proof.
  unfold _sparse. intros H.
  match type of H with
  | fbind (for_in ?body ?keys ?acc) _ = _ =>
      destruct (for_in body keys acc) as [[st|e]|] eqn:Hloop
  end; cbn [fbind] in H; try discriminate.
  apply _sparse_loop in Hloop; [|simpl; tauto].
  destruct Hloop as (b & errs & -> & Hiff & Hkeys).
  injection H as <-. exists errs. simpl. split; [reflexivity|]. split; [exact Hiff|].
  intros k Hk. unfold has in Hk.
  destruct (lookup errs k) as [v|] eqn:Hl; [|discriminate].
  destruct (Hkeys k v Hl) as [Hn|]; [discriminate|assumption].
Qed.

Lemma walk_model_keys (self : validator) (data model opts : value) (key : string) :
  ~ In key (own_keys model) ->
  forall keys errs st,
    (forall k, In k keys -> In k (own_keys model)) ->
    lookup errs key = None ->
    for_in (_validate_field' self data model opts) keys errs = Some (Ok st) ->
    match st with
    | Next errs' => lookup errs' key = None
    | Return r => nested_key_check is_object data model r
    end.
Proof.
  intros Hnot. induction keys as [|k keys IH]; intros errs st Hsub Hl H;
    cbn [for_in] in H.
  - injection H as <-. exact Hl.
  - destruct (_validate_field' self data model opts k errs) as [[s1|e]|] eqn:Hk;
      cbn [fbind] in H; try discriminate.
    assert (Hne : k <> key).
    { intros ->. apply Hnot, Hsub. now left. }
    pose proof (_validate_field_frame is_object is_type isEmpty setDefault checkValue
                  self data model opts k key errs s1
                  Hne (Hsub k (or_introl eq_refl)) Hk) as Hf.
    destruct s1 as [errs1|r].
    + apply (IH errs1 st); auto. intros k' Hin. apply Hsub. now right.
    + injection H as <-. exact Hf.
Qed.

(** X6: on the walk over the model keys validate reports model keys only:
    the error tree of an object has no entry under a key that is not a key
    of the model, whatever keys the data has; the one other outcome is the
    failed key check of a sub-object, which is returned as it is. *)
Theorem validate_reports_model_keys (model data opts : value) (key : string)
    (r : vresult) :
  is_object data = true ->
  plain_opts opts ->
  ~ In key (own_keys model) ->
  validate' model data opts = Some (Ok r) ->
  has_entry (errors r) key = false \/ nested_key_check is_object data model r.
Proof.
  intros Ho Hp Hnot H.
  assert (Hn : opts <> VNull).
  { intros ->. unfold validate in H. simpl in H. discriminate. }
  rewrite validate_plain in H by assumption.
  unfold _validate in H. cbn [_validate_fuel] in H.
  unfold _validate_body in H. rewrite Ho in H. cbn [negb] in H.
  match type of H with
  | fbind (for_in ?body ?keys ?errs) _ = _ =>
      destruct (for_in body keys errs) as [[st|e]|] eqn:Hloop
  end; cbn [fbind] in H; try discriminate.
  pose proof (walk_model_keys _ data model _ key Hnot (own_keys model) [] st
                (fun k Hin => Hin) eq_refl Hloop) as Hw.
  destruct st as [errs|r'].
  - left. destruct (nonempty errs); injection H as <-; simpl; auto.
    unfold has. now rewrite Hw.
  - right. injection H as <-. exact Hw.
Qed.

(** X7: a field with a sub-model and [type: 'array'] whose value is set,
    is not an array and has no [forEach] of its own (a string, a number,
    [true], a keyed object without that method) makes validate throw
    ([v.forEach] is not a function): no error message is reported for it.
    Stated for the first field of the model, which the walk reaches before
    any other, no other field being named by an array index. *)
Theorem array_field_not_an_array_throws (key : string) (scm : value)
    (rest : props) (data opts d : value) :
  is_object data = true -> nullish data = false ->
  plain_opts opts -> opts <> VNull ->
  forallb (fun kv => negb (starts_with_digit (fst kv))) rest = true ->
  lacks_method (prop data key) "forEach" = true ->
  truthy scm = true ->
  truthy (prop scm "model") = true ->
  prop scm "type" = VStr "array" ->
  truthy (prop data key) = true ->
  instanceof_Array (prop data key) = false ->
  setDefault (prop data key) scm = Ok d -> isEmpty d = false ->
  validate' (VObj ((key, scm) :: rest)) data opts = Some (Throw "TypeError").
Proof.
  intros Ho Hd Hp Hn _ _ Hscm Hsub Hty Hv Harr Hdef He.
  rewrite validate_plain by assumption.
  unfold _validate. cbn [_validate_fuel].
  unfold _validate_body. rewrite Ho. cbn [negb own_keys map fst for_in].
  unfold _validate_field at 1.
  cbn [get prop lookup]. rewrite String.eqb_refl. cbn [fbind lift].
  rewrite Hscm. cbn [negb].
  rewrite (get_prop data key Hd). cbn [fbind lift].
  rewrite !(get_prop scm _ (truthy_not_nullish _ Hscm)). cbn [fbind lift].
  rewrite Hdef. cbn [fbind lift]. rewrite He, !andb_false_r.
  rewrite Hsub, Hty. cbn [strict_equal]. rewrite String.eqb_refl. cbn [orb].
  rewrite Hv. cbn [negb].
  destruct (prop data key); simpl in Harr; try discriminate; reflexivity.
Qed.

(** X8: validate comes back on every input, with a result or an exception:
    each recursive call of [_validate] goes to the sub-model of a field of
    the current model, so the recursion is bounded by the depth of the
    model, not by the data. *)
Theorem validate_terminates (model data opts : value) :
  validate' model data opts <> None
  /\ (forall parentData, _validate' data model opts parentData <> None)
  /\ (forall fuel parentData,
        depth model < fuel ->
        _validate_fuel is_object is_type isEmpty setDefault checkValue
          fuel data model opts parentData <> None).
Proof.
  split; [|split].
  - destruct (validate_returns is_object is_type isEmpty setDefault checkValue
                model data opts) as [c ->]. discriminate.
  - intros parentData.
    destruct (_validate_returns is_object is_type isEmpty setDefault checkValue
                data model opts parentData) as [c ->]. discriminate.
  - intros fuel parentData. apply _validate_fuel_returns.
Qed.

End MoreWalk.

Lemma validate_valid_iff_null_witness :
  (false = true /\ VObj [("age", strings ["Not of type: integer"])] = VNull)
  \/ (false = false
      /\ ((exists errs,
             VObj [("age", strings ["Not of type: integer"])] = VObj errs
             /\ errs <> [])
          \/ (exists msgs,
                VObj [("age", strings ["Not of type: integer"])] = strings msgs
                /\ msgs <> []))).
Proof.
  apply (validate_valid_iff_null is_object is_type isEmpty (setDefault no_calls)
           (checkValue no_calls builtin_rules) person_model person_data VUndef
           (mkResult false (VObj [("age", strings ["Not of type: integer"])])));
    reflexivity.
Defined.

Lemma _sparse_result_witness :
  exists errs,
    VObj [("n", strings ["Not of type: integer"])] = VObj errs
    /\ (false = true <-> errs = [])
    /\ (forall k, has errs k = true ->
          In k (own_keys (VObj [("n", VStr ""); ("zz", VNum 1)]))
          /\ truthy (prop n_model k) = true).
Proof.
  apply (_sparse_result is_object is_type isEmpty (setDefault no_calls)
           (checkValue no_calls builtin_rules)
           (VObj [("n", VStr ""); ("zz", VNum 1)]) n_model sparse_opts
           (mkResult false (VObj [("n", strings ["Not of type: integer"])]))).
  reflexivity.
Defined.

Lemma validate_reports_model_keys_witness :
  has_entry (VObj [("age", strings ["Not of type: integer"])]) "zz" = false
  \/ nested_key_check is_object
       (VObj [("age", VStr "x"); ("zz", VNum 1)]) person_model
       (mkResult false (VObj [("age", strings ["Not of type: integer"])])).
Proof.
  apply (validate_reports_model_keys is_object is_type isEmpty (setDefault no_calls)
           (checkValue no_calls builtin_rules) person_model
           (VObj [("age", VStr "x"); ("zz", VNum 1)]) VUndef "zz"
           (mkResult false (VObj [("age", strings ["Not of type: integer"])]))).
  - reflexivity.
  - repeat split.
  - simpl. intros [H|[H|[]]]; discriminate.
  - reflexivity.
Defined.

Lemma array_field_not_an_array_throws_witness :
  Skematic_validate
    (VObj [("tags", VObj [("type", VStr "array"); ("model", field "string")])])
    (VObj [("tags", VStr "abc")]) VUndef
  = Some (Throw "TypeError").
Proof.
  apply (array_field_not_an_array_throws is_object is_type isEmpty
           (setDefault no_calls) (checkValue no_calls builtin_rules)
           "tags" (VObj [("type", VStr "array"); ("model", field "string")]) []
           (VObj [("tags", VStr "abc")]) VUndef (VStr "abc"));
    try reflexivity.
  - repeat split.
  - discriminate.
Defined.

(** ** The registry of transforms *)

Lemma registered_add (reg : registry) (key key' : string) (fn : transformer) :
  registered (add reg key fn) key'
  = if String.eqb key key' then Some fn else registered reg key'.
Proof.
  induction reg as [|[k f] reg IH]; simpl.
  - reflexivity.
  - destruct (String.eqb k key) eqn:E; simpl.
    + apply String.eqb_eq in E. subst k.
      destruct (String.eqb key key'); reflexivity.
    + rewrite IH. destruct (String.eqb key key') eqn:E'; auto.
      apply String.eqb_eq in E'. subst key'. now rewrite E.
Qed.



(** X10: [transform.available] after [transform.add] of a name that is not
    an array index (it does not start with a digit) nor [__proto__]: a name
    that is already registered keeps its place and the list is unchanged, a
    new name is appended; a name is never listed twice by adding it
    again. *)
Theorem available_add (reg : registry) (key : string) (fn : transformer) :
  starts_with_digit key = false -> key <> "__proto__" ->
  available (add reg key fn)
  = if is_registered reg key then available reg else available reg ++ [key].
Proof.
  intros _ _.
  unfold available, is_registered.
  induction reg as [|[k f] reg IH]; simpl.
  - reflexivity.
  - destruct (String.eqb k key) eqn:E; simpl.
    + reflexivity.
    + rewrite IH. destruct (registered reg key); reflexivity.
Qed.

Lemma available_add_witness :
  available (add (_transforms []) "slug" trim)
  = ["trim"; "nowhite"; "uppercase"; "lowercase"; "slug"]
  /\ available (add (_transforms []) "nowhite" trim)
     = ["trim"; "nowhite"; "uppercase"; "lowercase"].
Proof.
  split.
  - rewrite (available_add (_transforms []) "slug" trim); [reflexivity| |];
      [reflexivity|discriminate].
  - rewrite (available_add (_transforms []) "nowhite" trim); [reflexivity| |];
      [reflexivity|discriminate].
Defined.

Lemma registered_app (reg : registry) (k : string) (f : transformer) (name : string) :
  registered (reg ++ [(k, f)]) name
  = match registered reg name with
    | Some g => Some g
    | None => if String.eqb k name then Some f else None
    end.
Proof.
  induction reg as [|[k0 f0] reg IH]; simpl; auto.
  destruct (String.eqb k0 name); auto.
Qed.

Lemma _transforms_fold (Cast : registry) (name : string) :
  forall reg,
    registered
      (fold_left
         (fun reg cast =>
            if String.eqb (String.substring 0 2 (fst cast)) "to"
            then add reg (fst cast) (snd cast) else reg)
         Cast reg) name
    = if is_caster_name name
      then match registered (List.rev Cast) name with
           | Some f => Some f
           | None => registered reg name
           end
      else registered reg name.
Proof.
  unfold is_caster_name.
  induction Cast as [|[k f] Cast IH]; intros reg; simpl.
  - destruct (String.eqb (String.substring 0 2 name) "to"); reflexivity.
  - rewrite IH. rewrite registered_app.
    destruct (String.eqb (String.substring 0 2 name) "to") eqn:En.
    + destruct (registered (List.rev Cast) name); auto.
      destruct (String.eqb (String.substring 0 2 k) "to") eqn:Ek.
      * rewrite registered_add. destruct (String.eqb k name); reflexivity.
      * destruct (String.eqb k name) eqn:E; auto.
        apply String.eqb_eq in E. subst k. congruence.
    + destruct (String.eqb (String.substring 0 2 k) "to") eqn:Ek; auto.
      rewrite registered_add.
      destruct (String.eqb k name) eqn:E; auto.
      apply String.eqb_eq in E. subst k. congruence.
Qed.

Lemma _transforms_registered (Cast : registry) (name : string) :
  registered (_transforms Cast) name
  = if is_caster_name name
    then match registered (List.rev Cast) name with
         | Some f => Some f
         | None => registered builtin_transforms name
         end
    else registered builtin_transforms name.
Proof. unfold _transforms. apply _transforms_fold. Qed.

Lemma builtin_not_caster (name : string) :
  is_caster_name name = true -> registered builtin_transforms name = None.
Proof.
  intros H. unfold builtin_transforms. cbn [registered].
  destruct (String.eqb "trim" name) eqn:E1;
    [apply String.eqb_eq in E1; subst name; vm_compute in H; discriminate|].
  destruct (String.eqb "nowhite" name) eqn:E2;
    [apply String.eqb_eq in E2; subst name; vm_compute in H; discriminate|].
  destruct (String.eqb "uppercase" name) eqn:E3;
    [apply String.eqb_eq in E3; subst name; vm_compute in H; discriminate|].
  destruct (String.eqb "lowercase" name) eqn:E4;
    [apply String.eqb_eq in E4; subst name; vm_compute in H; discriminate|].
  reflexivity.
Qed.

(** X11: the registry built at load time, for every table of casters and
    every name other than those of the members of [Object.prototype]
    ([toString] and [toLocaleString] among them): a name that does not
    start with [to] stands for what it stands for among the four built-in
    transforms, so no caster replaces [trim], [nowhite], [uppercase] or
    [lowercase] and a caster with such a name is not registered; a name
    that starts with [to] stands for the caster of that name (the last one,
    should the table list it twice) and for nothing when there is none. *)
Theorem _transforms_names (Cast : registry) (name : string) :
  inherited_name name = false ->
  (is_caster_name name = false ->
   registered (_transforms Cast) name = registered builtin_transforms name)
  /\ (is_caster_name name = true ->
      registered (_transforms Cast) name = registered (List.rev Cast) name).
Proof.
  intros _.
  rewrite _transforms_registered. split; intros H; rewrite H; [reflexivity|].
  destruct (registered (List.rev Cast) name) eqn:E; [reflexivity|].
  now apply builtin_not_caster.
Qed.

Lemma _transforms_names_witness :
  registered (_transforms [("trim", uppercase); ("toUpper", uppercase)]) "trim"
  = Some trim
  /\ registered (_transforms [("trim", uppercase); ("toUpper", uppercase)]) "toUpper"
     = Some uppercase.
Proof.
  split.
  - rewrite (proj1 (_transforms_names [("trim", uppercase); ("toUpper", uppercase)]
                      "trim" eq_refl)); reflexivity.
  - rewrite (proj2 (_transforms_names [("trim", uppercase); ("toUpper", uppercase)]
                      "toUpper" eq_refl)); reflexivity.
Defined.

(** ** The pipeline *)

Lemma transform_each_app (reg : registry) (keys1 keys2 : list string) :
  forall val,
    transform_each reg val (keys1 ++ keys2)
    = bind (transform_each reg val keys1) (fun v => transform_each reg v keys2).
Proof.
  induction keys1 as [|key keys1 IH]; intros val; simpl; auto.
  destruct (transform_step reg val key); simpl; auto.
Qed.

(** X12: a list of names can be applied in two calls, as long as the first
    call does not come back with [undefined]: the second call then gives
    what the one call with the whole list gives.  (After an [undefined]
    intermediate value the one call still applies the remaining names, the
    second call would not: the test for [undefined] is made on entry
    only.) *)
Theorem transform_in_two_calls (reg : registry) (val val' : value)
    (keys1 keys2 : list string) :
  transform reg val (Names keys1) = Ok val' ->
  strict_equal val' VUndef = false ->
  transform reg val (Names (keys1 ++ keys2)) = transform reg val' (Names keys2).
Proof.
  unfold transform. simpl. intros H Hv.
  destruct (strict_equal val VUndef) eqn:E.
  - injection H as <-. congruence.
  - rewrite Hv, transform_each_app, H. reflexivity.
Qed.

Lemma transform_in_two_calls_witness :
  transform (_transforms []) (VStr " a b ") (Names (["trim"] ++ ["uppercase"]))
  = transform (_transforms []) (VStr "a b") (Names ["uppercase"]).
Proof.
  apply (transform_in_two_calls (_transforms []) (VStr " a b ") (VStr "a b")
           ["trim"] ["uppercase"]); reflexivity.
Defined.

(** X13: a single name given as a string is applied like the list of that
    one name, except the empty string, which is taken for no transforms at
    all: the value comes back as it is even when a transform is registered
    under the empty name, while the list holding the empty name applies
    it. *)
Theorem transform_single_name (reg : registry) (val : value) (key : string) :
  (key <> "" -> transform reg val (Name key) = transform reg val (Names [key]))
  /\ transform reg val (Name "") = Ok val
  /\ (forall fn, registered reg "" = Some fn -> strict_equal val VUndef = false ->
        transform reg val (Names [""]) = fn val).
Proof.
  split; [|split].
  - intros Hne. unfold transform. simpl.
    apply String.eqb_neq in Hne. now rewrite Hne.
  - reflexivity.
  - intros fn Hfn Hv. unfold transform. simpl. rewrite Hv.
    unfold transform_step. rewrite Hfn. destruct (fn val); reflexivity.
Qed.

Lemma transform_single_name_witness :
  transform (_transforms []) (VStr "ab") (Name "uppercase")
  = transform (_transforms []) (VStr "ab") (Names ["uppercase"])
  /\ transform (add (_transforms []) "" uppercase) (VStr "ab") (Names [""])
     = Ok (VStr "AB")
  /\ transform (add (_transforms []) "" uppercase) (VStr "ab") (Name "")
     = Ok (VStr "ab").
Proof.
  split; [|split].
  - apply (proj1 (transform_single_name (_transforms []) (VStr "ab") "uppercase")).
    discriminate.
  - apply (proj2 (proj2 (transform_single_name (add (_transforms []) "" uppercase)
                           (VStr "ab") "")) uppercase); reflexivity.
  - apply (proj1 (proj2 (transform_single_name (add (_transforms []) "" uppercase)
                           (VStr "ab") ""))).
Defined.

(** X14: an exception thrown by a transform is thrown by [transform]: the
    names after the failing one are not applied and no value comes back,
    whatever the names before it gave. *)
Theorem transform_throws (reg : registry) (val val' : value)
    (keys1 keys2 : list string) (key : string) (e : string) :
  strict_equal val VUndef = false ->
  transform reg val (Names keys1) = Ok val' ->
  transform_step reg val' key = Throw e ->
  transform reg val (Names (keys1 ++ key :: keys2)) = Throw e.
Proof.
  unfold transform. simpl. intros Hv H Hk. rewrite Hv in *.
  rewrite transform_each_app, H. simpl. now rewrite Hk.
Qed.

Lemma transform_throws_witness :
  transform (_transforms [("toNumber", fun _ => Ok (VNum 7))]) (VStr "7")
    (Names (["toNumber"] ++ "trim" :: ["uppercase"]))
  = Throw "TypeError".
Proof.
  apply (transform_throws (_transforms [("toNumber", fun _ => Ok (VNum 7))])
           (VStr "7") (VNum 7) ["toNumber"] ["uppercase"] "trim" "TypeError");
    reflexivity.
Defined.

(** X15: the four built-in transforms call a string method: on a value that
    is not a string and has no such method of its own (a number, a boolean,
    [null], an array, a keyed object without a function under the name of
    the method) [transform] throws for each of them, whatever casters are
    registered; only [undefined] passes. *)
Theorem builtin_transform_on_non_string (Cast : registry) (val : value)
    (name : string) :
  In name ["trim"; "nowhite"; "uppercase"; "lowercase"] ->
  (forall s, val <> VStr s) ->
  forallb (lacks_method val) ["trim"; "replace"; "toUpperCase"; "toLowerCase"]
  = true ->
  transform (_transforms Cast) val (Names [name])
  = if strict_equal val VUndef then Ok val else Throw "TypeError".
Proof.
  intros Hin Hs _. unfold transform. simpl.
  destruct (strict_equal val VUndef); auto.
  unfold transform_step.
  assert (Hc : is_caster_name name = false).
  { simpl in Hin. destruct Hin as [<-|[<-|[<-|[<-|[]]]]]; reflexivity. }
  rewrite _transforms_registered, Hc.
  simpl in Hin.
  destruct Hin as [<-|[<-|[<-|[<-|[]]]]]; simpl;
    (destruct val; simpl; auto; exfalso; eapply Hs; reflexivity).
Qed.

Lemma builtin_transform_on_non_string_witness :
  transform (_transforms []) (VNum 3) (Names ["trim"]) = Throw "TypeError".
Proof.
  apply (builtin_transform_on_non_string [] (VNum 3) "trim").
  - left. reflexivity.
  - intros s. discriminate.
  - reflexivity.
Defined.

Lemma remove_spaces_no_space (s : string) : has_space (remove_spaces s) = false.
Proof.
  induction s as [|c s IH]; simpl; auto.
  destruct (Ascii.eqb c " "%char) eqn:E; simpl; auto.
  now rewrite E.
Qed.

Lemma remove_spaces_fixed (s : string) : has_space s = false -> remove_spaces s = s.
Proof.
  induction s as [|c s IH]; simpl; auto.
  destruct (Ascii.eqb c " "%char); simpl; [discriminate|].
  intros H. now rewrite IH.
Qed.

Lemma remove_spaces_length (s : string) :
  String.length (remove_spaces s) <= String.length s.
Proof.
  induction s as [|c s IH]; simpl; auto.
  destruct (Ascii.eqb c " "%char); simpl; lia.
Qed.

(** X16: [nowhite] on a string removes the space characters and nothing
    else: the result has no space and is not longer than the string, a
    string without a space (tabs and line breaks included) comes back
    unchanged, and applying [nowhite] twice gives what applying it once
    gives. *)
Theorem nowhite_removes_spaces (s : string) :
  exists t,
    nowhite (VStr s) = Ok (VStr t)
    /\ has_space t = false
    /\ String.length t <= String.length s
    /\ (has_space s = false -> t = s)
    /\ nowhite (VStr t) = Ok (VStr t).
Proof.
  exists (remove_spaces s). unfold nowhite, on_string.
  split; [reflexivity|].
  split; [apply remove_spaces_no_space|].
  split; [apply remove_spaces_length|].
  split; [apply remove_spaces_fixed|].
  now rewrite remove_spaces_fixed by apply remove_spaces_no_space.
Qed.

(** ** strip *)

Lemma lookup_not_in (ps : props) (k : string) :
  ~ In k (map fst ps) -> lookup ps k = None.
Proof.
  induction ps as [|[k' v] ps IH]; simpl; intros H; auto.
  destruct (String.eqb k' k) eqn:E.
  - apply String.eqb_eq in E. subst. exfalso. apply H. now left.
  - apply IH. intros Hin. apply H. now right.
Qed.

Lemma delete_prop_not_in (ps : props) (k : string) :
  ~ In k (map fst ps) -> delete_prop ps k = ps.
Proof.
  induction ps as [|[k' v] ps IH]; simpl; intros H; auto.
  destruct (String.eqb k' k) eqn:E.
  - apply String.eqb_eq in E. subst. exfalso. apply H. now left.
  - rewrite IH; auto.
Qed.

Lemma delete_prop_twice (ps : props) (k : string) :
  delete_prop (delete_prop ps k) k = delete_prop ps k.
Proof.
  induction ps as [|[k' v] ps IH]; simpl; auto.
  destruct (String.eqb k' k) eqn:E; simpl; auto.
  now rewrite E, IH.
Qed.

Lemma lookup_delete_prop (ps : props) (k : string) : lookup (delete_prop ps k) k = None.
Proof.
  induction ps as [|[k' v] ps IH]; simpl; auto.
  destruct (String.eqb k' k) eqn:E; simpl; auto.
  now rewrite E.
Qed.

(** [values.forEach(...)] for one key: the key goes when its value is one of
    the values. *)
Lemma strip_key_spec (values : list value) (k : string) :
  forall data,
    strip_key values data k
    = if existsb (strict_equal (prop (VObj data) k)) values
      then delete_prop data k else data.
Proof.
  unfold strip_key.
  induction values as [|val values IH]; intros data; simpl; auto.
  destruct (strict_equal match lookup data k with Some v => v | None => VUndef end val)
    eqn:E; simpl.
  - rewrite IH. simpl. rewrite delete_prop_twice.
    destruct (existsb _ values); reflexivity.
  - apply IH.
Qed.

Lemma lookup_app_middle (pre post : props) (k : string) (v : value) :
  ~ In k (map fst pre) -> lookup (pre ++ (k, v) :: post) k = Some v.
Proof.
  induction pre as [|[k' v'] pre IH]; simpl; intros H.
  - now rewrite String.eqb_refl.
  - destruct (String.eqb k' k) eqn:E.
    + apply String.eqb_eq in E. subst. exfalso. apply H. now left.
    + apply IH. intros Hin. apply H. now right.
Qed.

Lemma delete_prop_app_middle (pre post : props) (k : string) (v : value) :
  ~ In k (map fst pre) -> ~ In k (map fst post) ->
  delete_prop (pre ++ (k, v) :: post) k = pre ++ post.
Proof.
  induction pre as [|[k' v'] pre IH]; simpl; intros H1 H2.
  - rewrite String.eqb_refl. now apply delete_prop_not_in.
  - destruct (String.eqb k' k) eqn:E.
    + apply String.eqb_eq in E. subst. exfalso. apply H1. now left.
    + rewrite IH; auto.
Qed.

Lemma strip_props_from (values : value) (post : props) :
  forall pre,
    NoDup (map fst (pre ++ post)) ->
    fold_left (strip_key (sentinels values)) (map fst post) (pre ++ post)
    = pre ++ filter (kept values) post.
Proof.
  induction post as [|[k v] post IH]; intros pre Hnd; simpl.
  - reflexivity.
  - rewrite map_app in Hnd. simpl in Hnd.
    pose proof (NoDup_remove_2 _ _ _ Hnd) as Hnot.
    pose proof (NoDup_remove_1 _ _ _ Hnd) as Hnd'.
    assert (Hpre : ~ In k (map fst pre)).
    { intros Hin. apply Hnot. apply in_or_app. now left. }
    assert (Hpost : ~ In k (map fst post)).
    { intros Hin. apply Hnot. apply in_or_app. now right. }
    rewrite strip_key_spec. cbn [prop].
    rewrite lookup_app_middle by exact Hpre.
    unfold kept at 1. cbn [snd].
    destruct (existsb (strict_equal v) (sentinels values)); cbn [negb].
    + rewrite delete_prop_app_middle by assumption.
      apply IH. now rewrite map_app.
    + replace (pre ++ (k, v) :: post) with ((pre ++ [(k, v)]) ++ post)
        by (now rewrite <- app_assoc).
      rewrite IH.
      * now rewrite <- app_assoc.
      * rewrite <- app_assoc. simpl. rewrite map_app. exact Hnd.
Qed.

Lemma strip_props_filter (values : value) (data : props) :
  NoDup (map fst data) -> strip_props values data = filter (kept values) data.
Proof. intros H. unfold strip_props. apply (strip_props_from values data []), H. Qed.

Lemma update_same (st : store) (r : ref) (f : props -> props) :
  nth_error (update st r f) r = option_map f (nth_error st r).
Proof.
  revert r. induction st as [|o st IH]; intros [|r]; simpl; auto.
Qed.

Lemma update_twice (st : store) (r : ref) (f g : props -> props) :
  update (update st r f) r g = update st r (fun o => g (f o)).
Proof.
  revert r. induction st as [|o st IH]; intros [|r]; simpl; auto.
  now rewrite IH.
Qed.

Lemma update_ext (st : store) (r : ref) (f g : props -> props) :
  (forall o, nth_error st r = Some o -> f o = g o) ->
  update st r f = update st r g.
Proof.
  revert r. induction st as [|o st IH]; intros [|r] H; simpl; auto.
  - rewrite (H o); auto.
  - rewrite (IH r); auto.
Qed.

Lemma NoDup_keys_filter (f : string * value -> bool) (ps : props) :
  NoDup (map fst ps) -> NoDup (map fst (filter f ps)).
Proof.
  induction ps as [|[k v] ps IH]; simpl; intros H; auto.
  inversion H as [|x l Hnot Hnd]; subst.
  destruct (f (k, v)); simpl; auto.
  constructor; auto.
  intros Hin. apply Hnot.
  apply in_map_iff in Hin. destruct Hin as ([k' v'] & <- & Hin).
  apply filter_In in Hin. apply in_map_iff. exists (k', v'). tauto.
Qed.

(** X17: [strip] with primitive values (compared by content) on an object
    (whose keys are distinct, none of them [hasOwnProperty], which the loop
    calls on the object) deletes exactly the properties whose value is
    strictly equal to one of the given values, a single value standing for
    the list of that one value: the properties left are the others, with
    their values and in their order, so no value left matches, and a key
    whose value matches none is still there. *)
Theorem strip_deletes_matching (values : value) (data : ref) (st : store)
    (o : props) :
  nth_error st data = Some o ->
  NoDup (map fst o) ->
  lookup o "hasOwnProperty" = None ->
  forallb primitive (sentinels values) = true ->
  nth_error (strip values data st) data = Some (filter (kept values) o)
  /\ (forall k v, lookup (filter (kept values) o) k = Some v ->
        lookup o k = Some v
        /\ existsb (strict_equal v) (sentinels values) = false)
  /\ (forall k v, lookup o k = Some v ->
        existsb (strict_equal v) (sentinels values) = false ->
        lookup (filter (kept values) o) k = Some v).
Proof.
  intros Ho Hnd _ _. split; [|split].
  - unfold strip. rewrite update_same, Ho. simpl.
    now rewrite strip_props_filter.
  - clear Ho. induction o as [|[k0 v0] o IH]; intros k v H; simpl in *.
    + discriminate.
    + inversion Hnd as [|x l Hnot Hnd']; subst.
      unfold kept at 1 in H. cbn [snd] in H.
      destruct (existsb (strict_equal v0) (sentinels values)) eqn:E; cbn [negb] in H.
      * destruct (IH Hnd' k v H) as [Hl Hk]. split; [|exact Hk].
        destruct (String.eqb k0 k) eqn:E0; auto.
        apply String.eqb_eq in E0. subst k0.
        rewrite (lookup_not_in o k Hnot) in Hl. discriminate.
      * simpl in H. destruct (String.eqb k0 k).
        -- injection H as <-. auto.
        -- now apply IH.
  - clear Ho. induction o as [|[k0 v0] o IH]; intros k v H Hk; simpl in *.
    + discriminate.
    + inversion Hnd as [|x l Hnot Hnd']; subst.
      unfold kept at 1. cbn [snd].
      destruct (String.eqb k0 k) eqn:E0.
      * injection H as ->. rewrite Hk. simpl. now rewrite E0.
      * destruct (existsb (strict_equal v0) (sentinels values)); simpl.
        -- now apply IH.
        -- rewrite E0. now apply IH.
Qed.

Lemma strip_deletes_matching_witness :
  nth_error
    (strip (VArr [VUndef; VStr "x"]) 1
       [[("a", VStr "x")]; [("a", VStr "x"); ("b", VNum 1); ("c", VUndef)]]) 1
  = Some (filter (kept (VArr [VUndef; VStr "x"]))
            [("a", VStr "x"); ("b", VNum 1); ("c", VUndef)]).
Proof.
  apply (strip_deletes_matching (VArr [VUndef; VStr "x"]) 1
           [[("a", VStr "x")]; [("a", VStr "x"); ("b", VNum 1); ("c", VUndef)]]
           [("a", VStr "x"); ("b", VNum 1); ("c", VUndef)]).
  - reflexivity.
  - repeat constructor; simpl; intuition discriminate.
  - reflexivity.
  - reflexivity.
Defined.

(** X18: stripping twice with the same primitive values changes nothing
    more than stripping once, stripping with the empty list of values
    changes nothing, and in both cases the store keeps its size (for an
    object whose keys are distinct, none of them [hasOwnProperty]). *)
Theorem strip_idempotent (values : value) (data : ref) (st : store) :
  (forall o, nth_error st data = Some o ->
     NoDup (map fst o) /\ lookup o "hasOwnProperty" = None) ->
  forallb primitive (sentinels values) = true ->
  strip values data (strip values data st) = strip values data st
  /\ strip (VArr []) data st = st
  /\ List.length (strip values data st) = List.length st.
Proof.
  intros Hwf _.
  assert (Hnd : forall o, nth_error st data = Some o -> NoDup (map fst o)).
  { intros o Ho. now apply Hwf. }
  clear Hwf. split; [|split].
  - unfold strip. rewrite update_twice. apply update_ext.
    intros o Ho. pose proof (Hnd o Ho) as Ho'.
    rewrite (strip_props_filter values o Ho').
    rewrite strip_props_filter by now apply NoDup_keys_filter.
    clear. induction o as [|kv o IH]; simpl; auto.
    destruct (kept values kv) eqn:E; simpl; auto.
    now rewrite E, IH.
  - unfold strip. rewrite (update_ext st data _ (fun o => o)).
    + clear. revert data. induction st as [|o st IH]; intros [|r]; simpl; auto.
      now rewrite IH.
    + intros o Ho. rewrite (strip_props_filter _ o (Hnd o Ho)).
      clear. induction o as [|kv o IH]; simpl; auto. now rewrite IH.
  - apply strip_length.
Qed.

Lemma strip_idempotent_witness :
  strip (VStr "x") 0 (strip (VStr "x") 0 [[("a", VStr "x"); ("b", VNum 1)]])
  = strip (VStr "x") 0 [[("a", VStr "x"); ("b", VNum 1)]].
Proof.
  apply (strip_idempotent (VStr "x") 0 [[("a", VStr "x"); ("b", VNum 1)]]).
  - intros o Ho. injection Ho as <-.
    split; [|reflexivity].
    repeat constructor; simpl; intuition discriminate.
  - reflexivity.
Defined.

(** ** How the walks compose *)

Section Compose.

Variable is_object : value -> bool.
Variable is_type : value -> string.
Variable isEmpty : value -> bool.
Variable setDefault : value -> value -> res value.
Variable checkValue : value -> value -> value -> value -> res (list string).

Local Abbreviation _validate' :=
  (_validate is_object is_type isEmpty setDefault checkValue).
Local Abbreviation _sparse' :=
  (_sparse is_object is_type isEmpty setDefault checkValue).
Local Abbreviation _sparse_body' :=
  (_sparse_body is_object is_type isEmpty setDefault checkValue).

Lemma _sparse_loop_entries (data model opts : value) (keys : list string) :
  forall acc st,
    for_in (_sparse_body' data model opts) keys acc = Some (Ok st) ->
    exists b errs,
      st = Next (b, errs)
      /\ forall key,
           (In key keys -> truthy (prop model key) = true ->
            exists out,
              _validate' (prop data key) (prop model key) opts data = Some (Ok out)
              /\ lookup errs key
                 = if valid out then lookup (snd acc) key else Some (errors out))
           /\ (~ In key keys \/ truthy (prop model key) = false ->
               lookup errs key = lookup (snd acc) key).
Proof.
  induction keys as [|k keys IH]; intros [b errs] st H; cbn [for_in] in H.
  - injection H as <-. exists b, errs. split; [reflexivity|].
    intros key. split; [intros []|reflexivity].
  - unfold _sparse_body at 1 in H.
    destruct (get model k) as [m|] eqn:Hm; cbn [fbind lift] in H; [|discriminate].
    apply get_inv in Hm. subst m.
    destruct (truthy (prop model k)) eqn:Ht; cbn [negb] in H.
    + destruct (get data k) as [d|] eqn:Hd; cbn [fbind lift] in H; [|discriminate].
      apply get_inv in Hd. subst d.
      destruct (_validate' (prop data k) (prop model k) opts data) as [[out|]|] eqn:Hv;
        cbn [fbind] in H; try discriminate.
      destruct (valid out) eqn:Hvalid; cbn [negb fbind ok] in H.
      * destruct (IH _ _ H) as (b' & errs' & -> & Hkeys).
        exists b', errs'. split; [reflexivity|]. intros key.
        destruct (Hkeys key) as [Hin Hout]. cbn [snd] in *. split.
        -- intros [->|Hk] Hkt.
           ++ destruct (in_dec string_dec key keys) as [Hk|Hk].
              ** apply Hin; assumption.
              ** exists out. split; [exact Hv|]. rewrite Hvalid. apply Hout. now left.
           ++ apply Hin; assumption.
        -- intros [Hn|Hf]; apply Hout; [left|now right].
           intros Hk. apply Hn. now right.
      * destruct (IH _ _ H) as (b' & errs' & -> & Hkeys).
        exists b', errs'. split; [reflexivity|]. intros key.
        destruct (Hkeys key) as [Hin Hout]. cbn [snd] in *. split.
        -- intros [->|Hk] Hkt.
           ++ exists out. split; [exact Hv|]. rewrite Hvalid.
              destruct (in_dec string_dec key keys) as [Hk|Hk].
              ** destruct (Hin Hk Hkt) as (out' & Hv' & Hl).
                 rewrite Hv in Hv'. injection Hv' as <-.
                 now rewrite Hvalid in Hl.
              ** rewrite Hout by now left. apply lookup_set_prop_same.
           ++ destruct (Hin Hk Hkt) as (out' & Hv' & Hl).
              exists out'. split; [exact Hv'|]. rewrite Hl.
              destruct (valid out') eqn:Hvalid'; auto.
              destruct (string_dec k key) as [->|Hne].
              ** rewrite Hv in Hv'. injection Hv' as <-. congruence.
              ** now apply lookup_set_prop_other.
        -- intros Hcase. rewrite Hout.
           ++ apply lookup_set_prop_other. intros ->.
              destruct Hcase as [Hn|Hf]; [apply Hn; now left|congruence].
           ++ destruct Hcase as [Hn|Hf]; [left|now right].
              intros Hk. apply Hn. now right.
    + cbn [fbind ok] in H. destruct (IH _ _ H) as (b' & errs' & -> & Hkeys).
      exists b', errs'. split; [reflexivity|]. intros key.
      destruct (Hkeys key) as [Hin Hout]. split.
      * intros [->|Hk] Hkt; [congruence|]. apply Hin; assumption.
      * intros [Hn|Hf]; apply Hout; [left|now right].
        intros Hk. apply Hn. now right.
Qed.

(** X19: sparse validation is validation key by key: when [_sparse]
    returns, each key of the data that is on the model has been validated
    by [_validate(data[key], model[key], opts, data)], and the error map
    holds the errors of that call under the key when it is invalid, and no
    entry for the key when it is valid. *)
Theorem _sparse_by_key (data model opts : value) (r : vresult) (key : string) :
  _sparse' data model opts = Some (Ok r) ->
  In key (own_keys data) ->
  truthy (prop model key) = true ->
  exists out errs,
    _validate' (prop data key) (prop model key) opts data = Some (Ok out)
    /\ errors r = VObj errs
    /\ lookup errs key = if valid out then None else Some (errors out).
Proof.
  unfold _sparse. intros H Hin Ht.
  match type of H with
  | fbind (for_in ?body ?keys ?acc) _ = _ =>
      destruct (for_in body keys acc) as [[st|e]|] eqn:Hloop
  end; cbn [fbind] in H; try discriminate.
  apply _sparse_loop_entries in Hloop.
  destruct Hloop as (b & errs & -> & Hkeys).
  injection H as <-.
  destruct (proj1 (Hkeys key) Hin Ht) as (out & Hv & Hl).
  exists out, errs. split; [exact Hv|]. split; [reflexivity|]. exact Hl.
Qed.

End Compose.

Lemma _sparse_by_key_witness :
  exists out errs,
    _validate is_object is_type isEmpty (setDefault no_calls)
      (checkValue no_calls builtin_rules)
      (prop n_data "n") (prop n_model "n") sparse_opts n_data = Some (Ok out)
    /\ VObj [("n", strings ["Not of type: integer"])] = VObj errs
    /\ lookup errs "n" = if valid out then None else Some (errors out).
Proof.
  apply (_sparse_by_key is_object is_type isEmpty (setDefault no_calls)
           (checkValue no_calls builtin_rules) n_data n_model sparse_opts
           (mkResult false (VObj [("n", strings ["Not of type: integer"])])) "n").
  - reflexivity.
  - left. reflexivity.
  - reflexivity.
Defined.

(** ** Fuel *)

Lemma fbind_some {A B} (c : fres A) (k : A -> fres B) (r : res B) :
  fbind c k = Some r ->
  (exists e, c = Some (Throw e) /\ r = Throw e)
  \/ (exists a, c = Some (Ok a) /\ k a = Some r).
Proof.
  destruct c as [[a|e]|]; simpl; intros H.
  - right. eauto.
  - left. injection H as <-. eauto.
  - discriminate.
Qed.

Lemma fbind_mono {A B} (c1 c2 : fres A) (k1 k2 : A -> fres B) (r : res B) :
  (forall x, c1 = Some x -> c2 = Some x) ->
  (forall a x, k1 a = Some x -> k2 a = Some x) ->
  fbind c1 k1 = Some r -> fbind c2 k2 = Some r.
Proof.
  intros Hc Hk H. destruct c1 as [[a|e]|]; simpl in H; try discriminate.
  - rewrite (Hc _ eq_refl). simpl. now apply Hk.
  - rewrite (Hc _ eq_refl). exact H.
Qed.

Lemma for_in_mono {K S R} (body1 body2 : K -> S -> fres (step S R)) (ks : list K) :
  (forall k s x, body1 k s = Some x -> body2 k s = Some x) ->
  forall s x, for_in body1 ks s = Some x -> for_in body2 ks s = Some x.
Proof.
  intros Hb. induction ks as [|k ks IH]; intros s x H; cbn [for_in] in *; auto.
  eapply fbind_mono; [ | |exact H].
  - intros y. apply Hb.
  - intros [s'|r] y Hy; auto.
Qed.

Section Fuel.

Variable is_object : value -> bool.
Variable is_type : value -> string.
Variable isEmpty : value -> bool.
Variable setDefault : value -> value -> res value.
Variable checkValue : value -> value -> value -> value -> res (list string).

Local Abbreviation _validate' :=
  (_validate is_object is_type isEmpty setDefault checkValue).
Local Abbreviation _validate_fuel' :=
  (_validate_fuel is_object is_type isEmpty setDefault checkValue).
Local Abbreviation _validate_body' :=
  (_validate_body is_object is_type isEmpty setDefault checkValue).
Local Abbreviation _validate_field' :=
  (_validate_field is_object is_type isEmpty setDefault checkValue).

Lemma _validate_elem_mono (self1 self2 : validator) (sub data opts : value)
    (key : string) (iv : nat * value) (errs : props) x :
  refines self1 self2 ->
  _validate_elem is_type checkValue self1 sub data opts key iv errs = Some x ->
  _validate_elem is_type checkValue self2 sub data opts key iv errs = Some x.
Proof.
  intros Hr. destruct iv as [idx val]. unfold _validate_elem.
  destruct (String.eqb (is_type val) "object"); [|exact (fun H => H)].
  apply fbind_mono; [intros y; apply Hr|intros a y H; exact H].
Qed.

Lemma _validate_field_mono (self1 self2 : validator) (data model opts : value)
    (key : string) (errs : props) x :
  refines self1 self2 ->
  _validate_field' self1 data model opts key errs = Some x ->
  _validate_field' self2 data model opts key errs = Some x.
Proof.
  intros Hr. unfold _validate_field.
  apply fbind_mono; [intros y H; exact H|]. intros scm y.
  destruct (negb (truthy scm)); [exact (fun H => H)|].
  apply fbind_mono; [intros z H; exact H|]. intros v y1.
  apply fbind_mono; [intros z H; exact H|]. intros required y2.
  apply fbind_mono; [intros z H; exact H|]. intros allowNull y3.
  apply fbind_mono; [intros z H; exact H|]. intros rules y4.
  apply fbind_mono; [intros z H; exact H|]. intros dflt y5.
  match goal with |- (if ?c then _ else _) = _ -> _ => destruct c end;
    [exact (fun H => H)|].
  apply fbind_mono; [intros z H; exact H|]. intros sub y6.
  destruct (truthy sub); [|exact (fun H => H)].
  apply fbind_mono; [intros z H; exact H|]. intros type y7.
  match goal with |- (if ?c then _ else _) = _ -> _ => destruct c end.
  - destruct (negb (truthy v)); [exact (fun H => H)|].
    destruct v; try exact (fun H => H).
    apply for_in_mono. intros iv s0 z. now apply _validate_elem_mono.
  - apply fbind_mono; [intros z H; exact H|]. intros ck y8.
    destruct (negb (valid ck)); [exact (fun H => H)|].
    apply fbind_mono; [intros z; apply Hr|intros a z H; exact H].
Qed.

Lemma _validate_body_mono (self1 self2 : validator) :
  refines self1 self2 -> refines (_validate_body' self1) (_validate_body' self2).
Proof.
  intros Hr data model opts parentData c. unfold _validate_body.
  destruct (negb (is_object data)); [exact (fun H => H)|].
  apply fbind_mono; [|intros a z H; exact H].
  intros x. apply for_in_mono. intros k s0 y. now apply _validate_field_mono.
Qed.

Lemma _validate_fuel_mono (n : nat) :
  forall m, n <= m -> refines (_validate_fuel' n) (_validate_fuel' m).
Proof.
  induction n as [|n IH]; intros m Hle.
  - intros data model opts parentData c H. discriminate.
  - destruct m as [|m]; [lia|]. simpl.
    apply _validate_body_mono, IH. lia.
Qed.

(** The fuel does not show in the result: with any fuel above the depth of
    the model, the fuelled walk gives what [_validate] gives. *)
Lemma _validate_fuel_enough (fuel : nat) (data model opts parentData : value) :
  depth model < fuel ->
  _validate_fuel' fuel data model opts parentData
  = _validate' data model opts parentData.
Proof.
  intros Hd. unfold _validate.
  destruct (_validate_fuel' (S (depth model)) data model opts parentData) as [c|] eqn:E.
  - apply (_validate_fuel_mono (S (depth model)) fuel); [lia|exact E].
  - exfalso. revert E. apply _validate_fuel_returns. lia.
Qed.

End Fuel.

(** ** Sub-objects *)

Section Nested.

Variable is_object : value -> bool.
Variable is_type : value -> string.
Variable isEmpty : value -> bool.
Variable setDefault : value -> value -> res value.
Variable checkValue : value -> value -> value -> value -> res (list string).

Local Abbreviation validate' :=
  (validate is_object is_type isEmpty setDefault checkValue).
Local Abbreviation _validate' :=
  (_validate is_object is_type isEmpty setDefault checkValue).
Local Abbreviation _validate_fuel' :=
  (_validate_fuel is_object is_type isEmpty setDefault checkValue).
Local Abbreviation _validate_field' :=
  (_validate_field is_object is_type isEmpty setDefault checkValue).

(** The step for a field leaves the entries of the other keys alone. *)
Lemma _validate_field_other_keys (self : validator) (data model opts : value)
    (k key : string) (errs errs' : props) :
  k <> key ->
  _validate_field' self data model opts k errs = Some (Ok (Next errs')) ->
  lookup errs' key = lookup errs key.
Proof.
  intros Hne H. unfold _validate_field in H.
  destruct (get model k) as [scm|]; cbn [fbind lift] in H; [|discriminate].
  destruct (negb (truthy scm)); [now injection H as <-|].
  destruct (get data k) as [v|]; cbn [fbind lift] in H; [|discriminate].
  destruct (get scm "required"); cbn [fbind lift] in H; [|discriminate].
  destruct (get scm "allowNull"); cbn [fbind lift] in H; [|discriminate].
  destruct (get scm "rules"); cbn [fbind lift] in H; [|discriminate].
  destruct (setDefault v scm); cbn [fbind lift] in H; [|discriminate].
  match type of H with (if ?c then _ else _) = _ => destruct c end;
    [now injection H as <-|].
  destruct (get scm "model") as [sub|]; cbn [fbind lift] in H; [|discriminate].
  destruct (truthy sub).
  - destruct (get scm "type"); cbn [fbind lift] in H; [|discriminate].
    match type of H with (if ?c then _ else _) = _ => destruct c end.
    + destruct (negb (truthy v)); [now injection H as <-|].
      destruct v as [| |b|n|s|elems|ps|f]; try discriminate.
      destruct (elems_loop_frame is_type checkValue self sub data opts k
                  elems 0 errs _ H) as (errs1 & E & Hkeys).
      injection E as <-. now apply Hkeys.
    + destruct (_checkKeys is_object sub v) as [ck|]; cbn [fbind lift] in H;
        [|discriminate].
      destruct (negb (valid ck)); [discriminate|].
      destruct (self v sub opts (VObj [])) as [[sr|]|]; cbn [fbind] in H;
        try discriminate.
      destruct (negb (valid sr)); injection H as <-; auto.
      now apply lookup_set_prop_other.
  - destruct (checkValue v scm data opts) as [es|]; cbn [fbind lift] in H;
      [|discriminate].
    destruct (nonempty es); injection H as <-; auto.
    now apply lookup_set_prop_other.
Qed.

(** The step for a field whose sub-model is checked against a sub-object
    that passes the key check. *)
Lemma _validate_field_sub_object (self : validator) (data model opts : value)
    (key : string) (errs : props) (d : value) (ck : vresult) :
  nullish model = false -> nullish data = false ->
  truthy (prop model key) = true ->
  truthy (prop (prop model key) "model") = true ->
  strict_equal (prop (prop model key) "type") (VStr "array") = false ->
  instanceof_Array (prop data key) = false ->
  setDefault (prop data key) (prop model key) = Ok d -> isEmpty d = false ->
  _checkKeys is_object (prop (prop model key) "model") (prop data key) = Ok ck ->
  valid ck = true ->
  _validate_field' self data model opts key errs
  = fbind (self (prop data key) (prop (prop model key) "model") opts (VObj []))
      (fun sr => if negb (valid sr)
                 then ok (Next (set_prop errs key (errors sr)))
                 else ok (Next errs)).
Proof.
  intros Hm Hd Hscm Hsub Hty Harr Hdef He Hck Hv.
  pose proof (truthy_not_nullish _ Hscm) as Hn.
  unfold _validate_field.
  rewrite (get_prop model key Hm). cbn [fbind lift]. rewrite Hscm. cbn [negb].
  rewrite (get_prop data key Hd). cbn [fbind lift].
  rewrite !(get_prop _ _ Hn). cbn [fbind lift].
  rewrite Hdef. cbn [fbind lift]. rewrite He, !andb_false_r.
  rewrite Hsub, Hty, Harr. cbn [orb].
  rewrite Hck. cbn [fbind lift]. rewrite Hv. reflexivity.
Qed.

Lemma walk_sub_object (self : validator) (data model opts : value) (key : string)
    (d : value) (ck : vresult) :
  nullish model = false -> nullish data = false ->
  truthy (prop model key) = true ->
  truthy (prop (prop model key) "model") = true ->
  strict_equal (prop (prop model key) "type") (VStr "array") = false ->
  instanceof_Array (prop data key) = false ->
  setDefault (prop data key) (prop model key) = Ok d -> isEmpty d = false ->
  _checkKeys is_object (prop (prop model key) "model") (prop data key) = Ok ck ->
  valid ck = true ->
  forall keys errs errs',
    In key keys ->
    for_in (_validate_field' self data model opts) keys errs
    = Some (Ok (Next errs')) ->
    exists sr,
      self (prop data key) (prop (prop model key) "model") opts (VObj [])
      = Some (Ok sr)
      /\ lookup errs' key = if valid sr then lookup errs key else Some (errors sr).
Proof.
  intros Hm Hd Hscm Hsub Hty Harr Hdef He Hck Hv.
  assert (Hother : forall keys errs errs',
            ~ In key keys ->
            for_in (_validate_field' self data model opts) keys errs
            = Some (Ok (Next errs')) ->
            lookup errs' key = lookup errs key).
  { induction keys as [|k keys IH]; intros errs errs' Hnot H; cbn [for_in] in H.
    - now injection H as <-.
    - destruct (_validate_field' self data model opts k errs)
        as [[[errs1|r1]|e]|] eqn:Hk; cbn [fbind] in H; try discriminate.
      rewrite (IH errs1 errs') by (auto; intros Hin; apply Hnot; now right).
      eapply _validate_field_other_keys; [|exact Hk].
      intros ->. apply Hnot. now left. }
  induction keys as [|k keys IH]; intros errs errs' Hin H; [destruct Hin|].
  cbn [for_in] in H.
  destruct (_validate_field' self data model opts k errs)
    as [[[errs1|r1]|e]|] eqn:Hk; cbn [fbind] in H; try discriminate.
  destruct (string_dec k key) as [->|Hne].
  - rewrite (_validate_field_sub_object self data model opts key errs d ck) in Hk
      by assumption.
    destruct (self (prop data key) (prop (prop model key) "model") opts (VObj []))
      as [[sr|]|] eqn:Hs; cbn [fbind] in Hk; try discriminate.
    exists sr. split; [reflexivity|].
    destruct (in_dec string_dec key keys) as [Hk'|Hk'].
    + destruct (IH errs1 errs' Hk' H) as (sr' & Hs' & Hl).
      injection Hs' as <-. rewrite Hl.
      destruct (valid sr) eqn:Hvalid; auto.
      cbn [negb] in Hk. now injection Hk as <-.
    + rewrite (Hother keys errs1 errs' Hk' H).
      destruct (valid sr); cbn [negb] in Hk; injection Hk as <-; auto.
      apply lookup_set_prop_same.
  - destruct Hin as [->|Hin]; [contradiction|].
    destruct (IH errs1 errs' Hin H) as (sr & Hs & Hl).
    exists sr. split; [exact Hs|]. rewrite Hl.
    now rewrite (_validate_field_other_keys self data model opts k key errs errs1 Hne Hk).
Qed.

(** X20: validation of a sub-object field is validation of the sub-object
    against the sub-model: when the walk over the model keys returns, a field
    with a sub-model, not of type array, whose value passes the key check has
    been validated by [_validate(data[key], model[key].model, opts)]; the
    error tree holds the errors of that call under the key of the field when
    it is invalid, and no entry for it when it is valid.  The one other
    outcome is the failed key check of another sub-object. *)
Theorem validate_sub_object (model data opts : value) (key : string)
    (d : value) (ck r : vresult) :
  is_object data = true -> nullish data = false ->
  plain_opts opts ->
  In key (own_keys model) ->
  truthy (prop model key) = true ->
  truthy (prop (prop model key) "model") = true ->
  strict_equal (prop (prop model key) "type") (VStr "array") = false ->
  instanceof_Array (prop data key) = false ->
  setDefault (prop data key) (prop model key) = Ok d -> isEmpty d = false ->
  _checkKeys is_object (prop (prop model key) "model") (prop data key) = Ok ck ->
  valid ck = true ->
  validate' model data opts = Some (Ok r) ->
  nested_key_check is_object data model r
  \/ exists sr,
       _validate' (prop data key) (prop (prop model key) "model")
         (match opts with VUndef => VObj [] | _ => opts end) (VObj [])
       = Some (Ok sr)
       /\ tree_entry (errors r) key = if valid sr then None else Some (errors sr).
Proof.
  intros Ho Hd Hp Hin Hscm Hsub Hty Harr Hdef He Hck Hv H.
  assert (Hn : opts <> VNull).
  { intros ->. unfold validate in H. simpl in H. discriminate. }
  assert (Hm : nullish model = false).
  { destruct model; simpl in *; try reflexivity; discriminate. }
  rewrite (validate_plain is_object is_type isEmpty setDefault checkValue) in H
    by assumption.
  set (o := match opts with VUndef => VObj [] | _ => opts end) in *.
  unfold _validate in H. cbn [_validate_fuel] in H.
  unfold _validate_body in H. rewrite Ho in H. cbn [negb] in H.
  match type of H with
  | fbind (for_in ?body ?keys ?errs) _ = _ =>
      destruct (for_in body keys errs) as [[[errs1|r1]|e]|] eqn:Hloop
  end; cbn [fbind] in H; try discriminate.
  - right.
    destruct (walk_sub_object _ data model o key d ck Hm Hd Hscm Hsub Hty Harr
                Hdef He Hck Hv (own_keys model) [] errs1 Hin Hloop)
      as (sr & Hs & Hl).
    exists sr. split.
    + rewrite <- Hs. symmetry.
      apply (_validate_fuel_enough is_object is_type isEmpty setDefault checkValue).
      pose proof (depth_sub_model _ Hsub). pose proof (depth_prop model key). lia.
    + simpl in Hl. destruct errs1 as [|kv errs1]; injection H as <-; simpl.
      * simpl in Hl. exact Hl.
      * exact Hl.
  - left. injection H as <-.
    assert (Hgen : forall keys errs,
              (forall k, In k keys -> In k (own_keys model)) ->
              for_in (_validate_field' (_validate_fuel' (depth model)) data model o)
                     keys errs = Some (Ok (Return r1)) ->
              nested_key_check is_object data model r1).
    { induction keys as [|k keys IH]; intros errs Hsubk Hl; cbn [for_in] in Hl;
        [discriminate|].
      destruct (_validate_field' (_validate_fuel' (depth model)) data model o k errs)
        as [[[errs2|r2]|e]|] eqn:Hk; cbn [fbind] in Hl; try discriminate.
      - apply (IH errs2); auto. intros k' Hk'. apply Hsubk. now right.
      - injection Hl as <-.
        assert (Hk0 : In k (own_keys model)) by (apply Hsubk; now left).
        unfold _validate_field in Hk.
        destruct (get model k) as [scm|] eqn:Hscm0; cbn [fbind lift] in Hk;
          [|discriminate].
        apply get_inv in Hscm0.
        destruct (negb (truthy scm)); [discriminate|].
        destruct (get data k) as [v|] eqn:Hv0; cbn [fbind lift] in Hk; [|discriminate].
        apply get_inv in Hv0.
        destruct (get scm "required"); cbn [fbind lift] in Hk; [|discriminate].
        destruct (get scm "allowNull"); cbn [fbind lift] in Hk; [|discriminate].
        destruct (get scm "rules"); cbn [fbind lift] in Hk; [|discriminate].
        destruct (setDefault v scm); cbn [fbind lift] in Hk; [|discriminate].
        match type of Hk with (if ?c then _ else _) = _ => destruct c end;
          [discriminate|].
        destruct (get scm "model") as [sub|] eqn:Hsub0; cbn [fbind lift] in Hk;
          [|discriminate].
        apply get_inv in Hsub0.
        destruct (truthy sub).
        + destruct (get scm "type"); cbn [fbind lift] in Hk; [|discriminate].
          match type of Hk with (if ?c then _ else _) = _ => destruct c end.
          * destruct (negb (truthy v)); [discriminate|].
            destruct v as [| |b|n|s|elems|ps|f]; try discriminate.
            destruct (elems_loop_frame is_type checkValue _ sub data o k
                        elems 0 errs _ Hk) as (errs3 & E & _).
            discriminate.
          * destruct (_checkKeys is_object sub v) as [ck0|] eqn:Hck0;
              cbn [fbind lift] in Hk; [|discriminate].
            destruct (negb (valid ck0)) eqn:Hvalid.
            -- injection Hk as <-. exists k. subst. repeat split; auto.
               now apply negb_true_iff.
            -- destruct (_validate_fuel' (depth model) v sub o (VObj [])) as [[sr|]|];
                 cbn [fbind] in Hk; try discriminate.
               destruct (negb (valid sr)); discriminate.
        + destruct (checkValue v scm data o) as [es|]; cbn [fbind lift] in Hk;
            [|discriminate].
          destruct (nonempty es); discriminate. }
    apply (Hgen (own_keys model) []); auto.
Qed.

End Nested.

Lemma validate_sub_object_witness :
  nested_key_check is_object
    (VObj [("address", VObj [("city", VNum 1)]); ("age", VNum 3)]) address_model
    (mkResult false
       (VObj [("address", VObj [("city", strings ["Not of type: string"])])]))
  \/ exists sr,
       _validate is_object is_type isEmpty (setDefault no_calls)
         (checkValue no_calls builtin_rules)
         (VObj [("city", VNum 1)]) (VObj [("city", field "string")])
         (VObj []) (VObj [])
       = Some (Ok sr)
       /\ tree_entry
            (VObj [("address", VObj [("city", strings ["Not of type: string"])])])
            "address"
          = if valid sr then None else Some (errors sr).
Proof.
  apply (validate_sub_object is_object is_type isEmpty (setDefault no_calls)
           (checkValue no_calls builtin_rules) address_model
           (VObj [("address", VObj [("city", VNum 1)]); ("age", VNum 3)]) VUndef
           "address" (VObj [("city", VNum 1)]) (mkResult true (VObj []))
           (mkResult false
              (VObj [("address", VObj [("city", strings ["Not of type: string"])])])));
    try reflexivity.
  - repeat split.
  - left. reflexivity.
Defined.

(** ** Array fields *)

Section ArrayField.

Variable is_object : value -> bool.
Variable is_type : value -> string.
Variable isEmpty : value -> bool.
Variable setDefault : value -> value -> res value.
Variable checkValue : value -> value -> value -> value -> res (list string).

Local Abbreviation validate' :=
  (validate is_object is_type isEmpty setDefault checkValue).
Local Abbreviation _validate' :=
  (_validate is_object is_type isEmpty setDefault checkValue).
Local Abbreviation _validate_fuel' :=
  (_validate_fuel is_object is_type isEmpty setDefault checkValue).
Local Abbreviation _validate_field' :=
  (_validate_field is_object is_type isEmpty setDefault checkValue).
Local Abbreviation elem_errors' := (elem_errors is_type checkValue).







End ArrayField.


